(** * Head PAN + Fist VOLUME: a shallow embedding of [app.py]

    The program reads webcam frames, turns the horizontal position of the
    first detected face into a stereo pan and the thumb/index pinch distance
    of the first detected hand into a volume, and publishes both over a
    socket together with the annotated frame.

    Modelling choices.
    - Python floats are idealised as real numbers ([R]); rounding, infinities
      and NaN are outside the model.  An [int] that meets a float
      ([max(-1, min(1, pan))]) is the same real.
    - Module globals ([camera], [is_running], [pan_history]) are fields of an
      explicit [State] that every operation threads through, together with
      the trace of what the process has published and spawned.
    - Indexing a sequence out of range raises [IndexError]; the code that can
      raise lives in a state-and-exception monad [M].
    - The detectors, the camera and the transport are external: what they
      return on a tick is an input of that tick.
    - One iteration of [camera_loop] and one run of a socket handler are
      atomic steps of the process; [time.sleep] and console prints are not
      modelled. *)

From Stdlib Require Import String.
From Stdlib Require Import Reals.Reals Lra Lia List Bool Arith ZArith.
Import ListNotations.

Open Scope R_scope.

(** ** Python and numpy primitives over the reals *)

Module Py.

(** [min(a, b)]: the first argument unless the second is strictly smaller. *)
Definition min (a b : R) : R := if Rlt_dec b a then b else a.

(** [max(a, b)]: the first argument unless the second is strictly larger. *)
Definition max (a b : R) : R := if Rlt_dec a b then b else a.

(** [math.hypot(a, b)]. *)
Definition hypot (a b : R) : R := sqrt (a * a + b * b).

(** [int(r)]: truncation towards zero. *)
Definition int (r : R) : Z :=
  if Rle_dec 0 r then Int_part r else (- Int_part (- r))%Z.

(** [sum(l)]. *)
Definition sum (l : list R) : R := fold_right Rplus 0 l.

(** [numpy.mean(l)] of a one-dimensional sequence. *)
Definition mean (l : list R) : R := sum l / INR (length l).

(** The inner segments of [numpy.interp]: [x0], [y0] is the breakpoint
    already passed, [xp], [fp] the ones still ahead. *)
Fixpoint interp_from (x x0 y0 : R) (xp fp : list R) : R :=
  match xp, fp with
  | x1 :: xp', y1 :: fp' =>
      if Rlt_dec x x1
      then (y1 - y0) / (x1 - x0) * (x - x0) + y0
      else interp_from x x1 y1 xp' fp'
  | _, _ => y0
  end.

(** [numpy.interp(x, xp, fp)] for increasing [xp]: [fp[0]] left of the
    first breakpoint, [fp[-1]] right of the last one, the straight line
    between two neighbours in between. *)
Definition interp (x : R) (xp fp : list R) : R :=
  match xp, fp with
  | x0 :: xp', y0 :: fp' =>
      if Rle_dec x x0 then y0 else interp_from x x0 y0 xp' fp'
  | _, _ => 0
  end.

End Py.

(** ** Detector results (MediaPipe messages) *)

Record NormalizedLandmark := mkLandmark { x : R; y : R; z : R }.

(** One hand: the repeated field [landmark]. *)
Record HandLandmarks := mkHand { landmark : list NormalizedLandmark }.

Record RelativeBoundingBox :=
  mkBox { xmin : R; ymin : R; width : R; height : R }.

(** One face: [location_data.relative_bounding_box] and the repeated field
    [score]. *)
Record Detection :=
  mkDetection { relative_bounding_box : RelativeBoundingBox; score : list R }.

(** ** Exceptions *)

Inductive exn := IndexError.

Inductive outcome (A : Type) :=
| Return (a : A)
| Raise (e : exn).
Arguments Return {A} a.
Arguments Raise {A} e.

(** [l[n]] on a Python sequence. *)
Definition index {A : Type} (l : list A) (n : nat) : outcome A :=
  match nth_error l n with
  | Some a => Return a
  | None => Raise IndexError
  end.

(** ** Volume from fist *)

(** [calculate_volume(hand_landmarks)], lines 52-61. *)
Definition calculate_volume (hand_landmarks : HandLandmarks) : outcome R :=
  match index (landmark hand_landmarks) 4 with
  | Raise e => Raise e
  | Return thumb =>
      match index (landmark hand_landmarks) 8 with
      | Raise e => Raise e
      | Return index_tip =>
          let dist := Py.hypot (x thumb - x index_tip) (y thumb - y index_tip) in
          let volume := Py.interp dist [0.02; 0.18] [0.0; 1.0] in
          let volume := Py.max 0.0 (Py.min 1.0 volume) in
          Return volume
      end
  end.

(** ** Frames, published events and the process state *)

Definition Pixel : Type := (Z * Z * Z)%type.
Definition Image : Type := list (list Pixel).

(** What [cv2.rectangle] and [cv2.putText] draw on a frame; a text overlay
    keeps the number it formats. *)
Inductive Overlay :=
| Rectangle (x0 y0 x1 y1 : Z)
| PutText (label : string) (value : R) (org : Z * Z).

Record Frame := mkFrame { image : Image; overlays : list Overlay }.

(** [cv2.flip(frame, 1)]: every row reversed. *)
Definition flip (img : Image) : Image := map (@rev Pixel) img.

(** The two events of the transport; [video_frame] carries the frame that
    is JPEG- and base64-encoded. *)
Inductive Event :=
| audio_update (pan volume confidence : R)
| video_frame (frame : Frame).

(** What the process does to the outside: [socketio.emit] and the start of a
    [camera_loop] thread, the latter with the value of [is_running] that the
    new thread finds. *)
Inductive Effect :=
| Emit (e : Event)
| ThreadStart (running : bool).

(** [cv2.VideoCapture(0, ...)] with the two properties the handler sets. *)
Record VideoCapture :=
  mkCapture { device : Z; prop_frame_width : Z; prop_frame_height : Z }.

Definition frame_width : Z := 640.
Definition frame_height : Z := 480.

(** The module globals, the number of live [camera_loop] threads and the
    trace of effects, oldest first. *)
Record State := mkState {
  camera : option VideoCapture;
  is_running : bool;
  pan_history : list R;
  loops : nat;
  trace : list Effect
}.

(** The process as the module leaves it after import. *)
Definition initial : State := mkState None false [] 0 [].

(** Truth value of an object that is [None] or a handle. *)
Definition truthy {A : Type} (o : option A) : bool :=
  match o with
  | Some _ => true
  | None => false
  end.

(** ** State and exceptions *)

Definition M (A : Type) : Type := State -> outcome A * State.

Definition pure {A : Type} (a : A) : M A := fun st => (Return a, st).

Definition bind {A B : Type} (c : M A) (k : A -> M B) : M B :=
  fun st =>
    match c st with
    | (Return a, st') => k a st'
    | (Raise e, st') => (Raise e, st')
    end.

Declare Scope py_scope.
Delimit Scope py_scope with py.
Notation "v <- c ;; k" := (bind c (fun v => k))
  (at level 61, c at next level, right associativity) : py_scope.
Notation "' pat <- c ;; k" := (bind c (fun v => match v with pat => k end))
  (at level 61, pat pattern, c at next level, right associativity) : py_scope.
Notation "c ;; k" := (bind c (fun _ => k))
  (at level 61, right associativity) : py_scope.
Open Scope py_scope.

Definition get : M State := fun st => (Return st, st).

Definition lift {A : Type} (o : outcome A) : M A := fun st => (o, st).

Definition set_camera (c : option VideoCapture) : M unit :=
  fun st =>
    (Return tt, mkState c (is_running st) (pan_history st) (loops st) (trace st)).

Definition set_is_running (b : bool) : M unit :=
  fun st =>
    (Return tt, mkState (camera st) b (pan_history st) (loops st) (trace st)).

Definition set_pan_history (h : list R) : M unit :=
  fun st =>
    (Return tt, mkState (camera st) (is_running st) h (loops st) (trace st)).

(** [socketio.emit(...)]. *)
Definition emit (e : Event) : M unit :=
  fun st =>
    (Return tt,
     mkState (camera st) (is_running st) (pan_history st) (loops st)
       (trace st ++ [Emit e])).

(** [threading.Thread(target=camera_loop, daemon=True).start()]. *)
Definition thread_start : M unit :=
  fun st =>
    (Return tt,
     mkState (camera st) (is_running st) (pan_history st) (S (loops st))
       (trace st ++ [ThreadStart (is_running st)])).

(** A [camera_loop] thread ends: its loop condition failed or an exception
    escaped it. *)
Definition thread_exit (st : State) : State :=
  mkState (camera st) (is_running st) (pan_history st) (pred (loops st))
    (trace st).

(** ** Pan smoothing *)

Definition SMOOTH : nat := 6.

(** [smooth_pan(val)], lines 45-49. *)
Definition smooth_pan (val : R) : M R :=
  h <- get ;;
  set_pan_history (pan_history h ++ [val]) ;;
  h <- get ;;
  (if (SMOOTH <? length (pan_history h))%nat
   then set_pan_history (tl (pan_history h))
   else pure tt) ;;
  h <- get ;;
  pure (Py.mean (pan_history h)).

(** ** Camera loop *)

(** What one iteration gets from outside: the pair that [camera.read()]
    returns and the results of the two detectors on that frame (no result
    and an empty list are both falsy). *)
Record Tick := mkTick {
  ret : bool;
  frame : Image;
  detections : list Detection;
  multi_hand_landmarks : list HandLandmarks
}.

(** Lines 74-121: the body of the loop after a successful read.  The
    conversion to RGB only feeds the detectors, whose results are in [t]. *)
Definition camera_loop_body (t : Tick) : M unit :=
  let frame := mkFrame (flip (frame t)) [] in
  let pan := 0.0 in
  let volume := 1.0 in
  let confidence := 0.0 in
  '(pan, confidence, frame) <-
    match detections t with
    | det :: _ =>
        let box := relative_bounding_box det in
        let cx := xmin box + width box / 2 in
        let SENSITIVITY := 3.0 in
        let pan := ((cx * 2) - 1) * SENSITIVITY in
        let pan := Py.max (-1) (Py.min 1 pan) in
        pan <- smooth_pan pan ;;
        confidence <- lift (index (score det) 0) ;;
        let bx := Py.int (xmin box * IZR frame_width) in
        let by_ := Py.int (ymin box * IZR frame_height) in
        let bw := Py.int (width box * IZR frame_width) in
        let bh := Py.int (height box * IZR frame_height) in
        let frame :=
          mkFrame (image frame)
            (overlays frame
               ++ [Rectangle bx by_ (bx + bw) (by_ + bh);
                   PutText "PAN"%string pan (10, 40)%Z]) in
        pure (pan, confidence, frame)
    | [] => pure (pan, confidence, frame)
    end ;;
  '(volume, frame) <-
    match multi_hand_landmarks t with
    | hand :: _ =>
        volume <- lift (calculate_volume hand) ;;
        let frame :=
          mkFrame (image frame)
            (overlays frame ++ [PutText "VOL"%string volume (10, 80)%Z]) in
        pure (volume, frame)
    | [] => pure (volume, frame)
    end ;;
  emit (audio_update pan volume confidence) ;;
  emit (video_frame frame).

Inductive Flow := Continue | Break.

(** One pass through [while is_running and camera: ...]: the test of the
    condition, the read and, when it succeeds, the body. *)
Definition camera_loop_iteration (t : Tick) : M Flow :=
  st <- get ;;
  if is_running st && truthy (camera st)
  then
    if negb (ret t)
    then pure Continue
    else camera_loop_body t ;; pure Continue
  else pure Break.

(** [camera_loop()], lines 64-125, on its own (no handler runs in between)
    for as many iterations as there are ticks. *)
Fixpoint camera_loop (ticks : list Tick) : M unit :=
  match ticks with
  | [] => pure tt
  | t :: ticks' =>
      flow <- camera_loop_iteration t ;;
      match flow with
      | Continue => camera_loop ticks'
      | Break => pure tt
      end
  end.

(** ** Session handlers *)

(** [start_tracking()], lines 190-202. *)
Definition start_tracking : M unit :=
  st <- get ;;
  (if truthy (camera st)
   then pure tt
   else set_camera (Some (mkCapture 0 frame_width frame_height))) ;;
  st <- get ;;
  if negb (is_running st)
  then set_is_running true ;; thread_start
  else pure tt.

(** [disconnect()], lines 204-207. *)
Definition disconnect : M unit := set_is_running false.

(** ** The process *)

(** What can happen next: a client triggers a handler, or a live loop
    thread makes one pass. *)
Inductive Trigger :=
| StartTracking
| Disconnect
| LoopPass (t : Tick).

Definition step (st : State) (g : Trigger) : State :=
  match g with
  | StartTracking => snd (start_tracking st)
  | Disconnect => snd (disconnect st)
  | LoopPass t =>
      match loops st with
      | O => st
      | S _ =>
          match camera_loop_iteration t st with
          | (Return Continue, st') => st'
          | (_, st') => thread_exit st'
          end
      end
  end.

Definition run (st : State) (gs : list Trigger) : State := fold_left step gs st.

(** The events published so far, oldest first. *)
Definition published (st : State) : list Event :=
  flat_map (fun f => match f with Emit e => [e] | ThreadStart _ => [] end)
    (trace st).

(** * Notions used in the statements *)

(** The clamp of the specification: the nearest bound outside [[lo, hi]],
    the value itself inside. *)
Definition clamp (lo hi v : R) : R :=
  if Rlt_dec v lo then lo else if Rlt_dec hi v then hi else v.

(** The euclidean distance in the image plane between two landmarks. *)
Definition pinch_distance (a b : NormalizedLandmark) : R :=
  sqrt (Rsqr (x a - x b) + Rsqr (y a - y b)).

(** A hand of 21 landmarks whose thumb tip and index tip are given. *)
Definition hand_with (thumb index_tip : NormalizedLandmark) : HandLandmarks :=
  let o := mkLandmark 0 0 0 in
  mkHand (repeat o 4 ++ [thumb] ++ repeat o 3 ++ [index_tip] ++ repeat o 12).

(** The history after [val] has been pushed: appended, and the oldest element
    dropped when that makes more than [SMOOTH]. *)
Definition pushed (val : R) (h : list R) : list R :=
  let h' := h ++ [val] in
  if (SMOOTH <? length h')%nat then tl h' else h'.

(** [st] with another history. *)
Definition with_pan_history (st : State) (h : list R) : State :=
  mkState (camera st) (is_running st) h (loops st) (trace st).

(** Successive calls of [smooth_pan], with the values they return. *)
Fixpoint feed (vals : list R) : M (list R) :=
  match vals with
  | [] => pure []
  | v :: vals' =>
      o <- smooth_pan v ;;
      os <- feed vals' ;;
      pure (o :: os)
  end.

Ltac feed_compute :=
  cbv [feed bind smooth_pan get set_pan_history pure pan_history camera
       is_running loops trace initial app length Nat.ltb Nat.leb SMOOTH tl
       fst snd].

Ltac mean_compute :=
  unfold Py.mean, Py.sum; cbn [fold_right length INR]; try lra.

(** The pan of a face box before smoothing (lines 87-91). *)
Definition box_pan (box : RelativeBoundingBox) : R :=
  Py.max (-1) (Py.min 1 (((xmin box + width box / 2) * 2 - 1) * 3.0)).

(** What the body computes on a tick: the history it leaves, the three
    numbers of the payload. *)
Definition tick_history (t : Tick) (h : list R) : list R :=
  match detections t with
  | det :: _ => pushed (box_pan (relative_bounding_box det)) h
  | [] => h
  end.

(** The published pan: the mean of the new history with a face, the
    starting value 0.0 without. *)
Definition tick_pan (t : Tick) (h : list R) : R :=
  match detections t with
  | _ :: _ => Py.mean (tick_history t h)
  | [] => 0
  end.

(** The published confidence: [det.score[0]] with a face. *)
Definition tick_confidence (t : Tick) : outcome R :=
  match detections t with
  | det :: _ => index (score det) 0
  | [] => Return 0
  end.

(** The published volume: [calculate_volume] of the first hand. *)
Definition tick_volume (t : Tick) : outcome R :=
  match multi_hand_landmarks t with
  | hand :: _ => calculate_volume hand
  | [] => Return 1
  end.

(** [st] with another trace. *)
Definition with_trace (st : State) (tr : list Effect) : State :=
  mkState (camera st) (is_running st) (pan_history st) (loops st) tr.

Ltac body_compute :=
  cbv [bind pure emit lift with_pan_history with_trace pan_history camera
       is_running loops trace image overlays].

(** The shape that the detectors' messages have: a detection carries a
    score, a hand carries landmarks 4 and 8. *)
Definition well_formed (t : Tick) : Prop :=
  match detections t with
  | det :: _ => score det <> []
  | [] => True
  end /\
  match multi_hand_landmarks t with
  | hand :: _ => (8 < length (landmark hand))%nat
  | [] => True
  end.

(** The loop condition holds. *)
Definition live (st : State) : Prop :=
  is_running st = true /\ camera st <> None.

(** A process in which one loop runs on an open camera. *)
Definition tracking (h : list R) : State :=
  mkState (Some (mkCapture 0 frame_width frame_height)) true h 1 [].

(** Sample ticks: a face at the left edge, a failed read, a centred face
    with a pinching hand, an empty picture, a face at the right edge. *)
Definition face_far_left : Tick :=
  mkTick true [] [mkDetection (mkBox 0.0 0.3 0.2 0.25) [0.9]] [].

Definition no_frame : Tick := mkTick false [] [] [].

Definition pinching_face : Tick :=
  mkTick true [[(1, 2, 3); (4, 5, 6)]%Z]
    [mkDetection (mkBox 0.4 0.3 0.2 0.25) [0.9]]
    [hand_with (mkLandmark 0.10 0.5 0) (mkLandmark 0 0.5 0.3)].

Definition nobody : Tick := mkTick true [[(1, 2, 3); (4, 5, 6)]%Z] [] [].

(** The pan of the latest [audio_update] among published events. *)
Fixpoint last_pan (evs : list Event) : option R :=
  match evs with
  | [] => None
  | audio_update pan _ _ :: evs' =>
      match last_pan evs' with
      | Some later => Some later
      | None => Some pan
      end
  | video_frame _ :: evs' => last_pan evs'
  end.

(** The reading under which a tick without a face repeats the pan that was
    published last. *)
Definition pan_held (st : State) (t : Tick) : Prop :=
  forall pan,
    last_pan (published st) = Some pan ->
    last_pan (published (snd (camera_loop_iteration t st))) = Some pan.

Definition face_far_right : Tick :=
  mkTick true [[(1, 2, 3); (4, 5, 6)]%Z]
    [mkDetection (mkBox 0.9 0.3 0.2 0.25) [0.9]] [].

(** The ranges of the payload. *)
Definition pan_range (r : R) : Prop := -1 <= r <= 1.

Definition volume_range (r : R) : Prop := 0 <= r <= 1.

Definition payload_in_range (e : Event) : Prop :=
  match e with
  | audio_update pan volume _ => pan_range pan /\ volume_range volume
  | video_frame _ => True
  end.

(** What stays true of a process whatever happens to it. *)
Definition in_range (st : State) : Prop :=
  Forall pan_range (pan_history st) /\ Forall payload_in_range (published st).

(** With no disconnect so far: at most one loop, none before the first
    start, and a camera once the flag is set. *)
Definition single_loop (st : State) : Prop :=
  (loops st <= 1)%nat /\
  (is_running st = false -> loops st = 0%nat) /\
  (is_running st = true -> camera st <> None).

(** The horizontal centre of a face box. *)
Definition box_centre (box : RelativeBoundingBox) : R :=
  xmin box + width box / 2.

(** The pan that a pass hands to the smoother: the newest element of the
    history it leaves. *)
Definition pan_in (t : Tick) (st : State) : R :=
  last (pan_history (snd (camera_loop_iteration t st))) 0.

(** A tick that shows one face and nothing else. *)
Definition face_at (box : RelativeBoundingBox) : Tick :=
  mkTick true [] [mkDetection box [0.9]] [].

(** A landmark, and a whole hand, moved by a fixed offset. *)
Definition shift (dx dy dz : R) (p : NormalizedLandmark) : NormalizedLandmark :=
  mkLandmark (x p + dx) (y p + dy) (z p + dz).

Definition shift_hand (dx dy dz : R) (hand : HandLandmarks) : HandLandmarks :=
  mkHand (map (shift dx dy dz) (landmark hand)).

(** The volume of a pinch distance, as lines 59-60 compute it. *)
Definition distance_volume (d : R) : R :=
  Py.max 0.0 (Py.min 1.0 (Py.interp d [0.02; 0.18] [0.0; 1.0])).

(** The last [SMOOTH] elements of a sequence. *)
Definition window (l : list R) : list R := skipn (length l - SMOOTH) l.


(** Published events that come in pairs: a payload, then its frame. *)
Inductive paired : list Event -> Prop :=
| paired_nil : paired []
| paired_cons (pan volume confidence : R) (f : Frame) (evs : list Event) :
    paired evs ->
    paired (audio_update pan volume confidence :: video_frame f :: evs).

Definition is_start (g : Trigger) : bool :=
  match g with
  | StartTracking => true
  | _ => false
  end.

Definition is_pass (g : Trigger) : bool :=
  match g with
  | LoopPass _ => true
  | _ => false
  end.

(** [n] times: a client starts tracking and disconnects, with no pass of a
    loop in between. *)
Fixpoint restarts (n : nat) : list Trigger :=
  match n with
  | O => []
  | S n' => StartTracking :: Disconnect :: restarts n'
  end.

(** The rectangle of lines 96-101: the box scaled to pixels, every number
    cut to an integer on its own. *)
Definition box_rectangle (box : RelativeBoundingBox) : Overlay :=
  let bx := Py.int (xmin box * IZR frame_width) in
  let by_ := Py.int (ymin box * IZR frame_height) in
  let bw := Py.int (width box * IZR frame_width) in
  let bh := Py.int (height box * IZR frame_height) in
  Rectangle bx by_ (bx + bw) (by_ + bh).

(** What a pass draws on the frame, given the pan and the volume it
    publishes: the box and the pan label for a face, the volume label for a
    hand. *)
Definition tick_overlays (t : Tick) (pan volume : R) : list Overlay :=
  match detections t with
  | det :: _ =>
      [box_rectangle (relative_bounding_box det);
       PutText "PAN"%string pan (10, 40)%Z]
  | [] => []
  end ++
  match multi_hand_landmarks t with
  | _ :: _ => [PutText "VOL"%string volume (10, 80)%Z]
  | [] => []
  end.

(** A tick whose detection carries no score. *)
Definition face_without_score : Tick :=
  mkTick true [] [mkDetection (mkBox 0.9 0.3 0.2 0.25) []] [].


(** ** The page that [index()] serves

    The script of the page keeps three variables, [ctx], [panner] and
    [gain], which are undefined until [start()] has run once and are then
    set together; [panner.pan.value] starts at 0 and [gain.gain.value] at 1.
    The two labels are modelled by the number they show (with two
    decimals), the picture by the frame it decodes. *)

Module Page.

Record AudioGraph := mkGraph { panner_pan : R; gain_gain : R }.

Record Page := mkPage {
  graph : option AudioGraph;
  panTxt : R;
  volTxt : R;
  img : option Frame;
  playing : bool;
  started : nat
}.

(** The page as it is loaded: labels 0.00 and 1.00, no picture. *)
Definition loaded : Page := mkPage None 0 1 None false 0.

(** [start()], lines 163-173; [started] counts the [start_tracking] events
    sent to the server. *)
Definition start (p : Page) : Page :=
  let g :=
    match graph p with
    | Some g => Some g
    | None => Some (mkGraph 0 1)
    end in
  mkPage g (panTxt p) (volTxt p) (img p) true (S (started p)).

(** The two [socket.on] handlers, lines 175-184. *)
Definition receive (p : Page) (e : Event) : Page :=
  match e with
  | video_frame f =>
      mkPage (graph p) (panTxt p) (volTxt p) (Some f) (playing p) (started p)
  | audio_update pan volume _ =>
      let g :=
        match graph p with
        | Some g => Some (mkGraph pan volume)
        | None => None
        end in
      mkPage g pan volume (img p) (playing p) (started p)
  end.

(** What happens to a page: the button is pressed or an event arrives. *)
Inductive Input :=
| Click
| Recv (e : Event).

Definition step (p : Page) (i : Input) : Page :=
  match i with
  | Click => start p
  | Recv e => receive p e
  end.

Definition run (p : Page) (ins : list Input) : Page := fold_left step ins p.

Definition is_click (i : Input) : bool :=
  match i with
  | Click => true
  | Recv _ => false
  end.

(** The audio parameters are inside the ranges of the Web Audio nodes. *)
Definition audible (p : Page) : Prop :=
  match graph p with
  | Some g => -1 <= panner_pan g <= 1 /\ 0 <= gain_gain g <= 1
  | None => True
  end.

End Page.

(** * Properties *)

(** ** Arithmetic of the primitives *)

Lemma py_min_Rmin (a b : R) : Py.min a b = Rmin a b.
Proof.
  unfold Py.min, Rmin.
  destruct (Rlt_dec b a), (Rle_dec a b); lra.
Qed.

Lemma py_max_Rmax (a b : R) : Py.max a b = Rmax a b.
Proof.
  unfold Py.max, Rmax.
  destruct (Rlt_dec a b), (Rle_dec a b); lra.
Qed.

Lemma py_clamp (lo hi v : R) :
  lo <= hi -> Py.max lo (Py.min hi v) = clamp lo hi v.
Proof.
  intros Hle. unfold Py.max, Py.min, clamp.
  destruct (Rlt_dec v hi), (Rlt_dec v lo), (Rlt_dec hi v);
    try destruct (Rlt_dec lo v); try destruct (Rlt_dec lo hi); lra.
Qed.

Lemma clamp_bounds (lo hi v : R) : lo <= hi -> lo <= clamp lo hi v <= hi.
Proof.
  intros Hle. unfold clamp.
  destruct (Rlt_dec v lo), (Rlt_dec hi v); lra.
Qed.

(** [numpy.interp] on the two breakpoints of [calculate_volume]. *)
Lemma interp_pinch (d : R) :
  Py.interp d [0.02; 0.18] [0.0; 1.0] =
  if Rle_dec d 0.02 then 0
  else if Rlt_dec d 0.18 then (d - 0.02) / (0.18 - 0.02) else 1.
Proof.
  unfold Py.interp, Py.interp_from.
  destruct (Rle_dec d 0.02); [lra|].
  destruct (Rlt_dec d 0.18); lra.
Qed.

(** The volume as a function of the pinch distance alone. *)
Lemma pinch_volume (d : R) :
  Py.max 0.0 (Py.min 1.0 (Py.interp d [0.02; 0.18] [0.0; 1.0])) =
  if Rle_dec d 0.02 then 0
  else if Rlt_dec d 0.18 then (d - 0.02) / (0.18 - 0.02) else 1.
Proof.
  rewrite interp_pinch, py_clamp by lra. unfold clamp.
  destruct (Rle_dec d 0.02) as [H1|H1].
  - destruct (Rlt_dec 0 0.0), (Rlt_dec 1.0 0); lra.
  - destruct (Rlt_dec d 0.18) as [H2|H2].
    + assert (0 < (d - 0.02) / (0.18 - 0.02) < 1).
      { split.
        - apply Rdiv_lt_0_compat; lra.
        - apply Rmult_lt_reg_r with (0.18 - 0.02); [lra|].
          unfold Rdiv. rewrite Rmult_assoc, Rinv_l by lra. lra. }
      destruct (Rlt_dec ((d - 0.02) / (0.18 - 0.02)) 0.0),
        (Rlt_dec 1.0 ((d - 0.02) / (0.18 - 0.02))); lra.
    + destruct (Rlt_dec 1 0.0), (Rlt_dec 1.0 1); lra.
Qed.

(** ** Volume from the pinch distance *)

Lemma hypot_pinch_distance (a b : NormalizedLandmark) :
  Py.hypot (x a - x b) (y a - y b) = pinch_distance a b.
Proof. reflexivity. Qed.

(** [calculate_volume] on a hand that has landmarks 4 and 8. *)
Lemma calculate_volume_eq (hand : HandLandmarks)
    (thumb index_tip : NormalizedLandmark) :
  nth_error (landmark hand) 4 = Some thumb ->
  nth_error (landmark hand) 8 = Some index_tip ->
  calculate_volume hand =
  Return (let d := pinch_distance thumb index_tip in
          if Rle_dec d 0.02 then 0
          else if Rlt_dec d 0.18 then (d - 0.02) / (0.18 - 0.02) else 1).
Proof.
  intros H4 H8. unfold calculate_volume, index. rewrite H4, H8.
  cbv zeta. rewrite hypot_pinch_distance, pinch_volume. reflexivity.
Qed.

Lemma sqrt_square (r : R) : 0 <= r -> sqrt (Rsqr r + Rsqr 0) = r.
Proof.
  intros Hr. rewrite Rsqr_0, Rplus_0_r. apply sqrt_Rsqr. exact Hr.
Qed.

(** C1: with d the euclidean distance between thumb tip (landmark 4) and
    index tip (landmark 8), [calculate_volume] returns 0.0 when d <= 0.02,
    1.0 when d >= 0.18 and the linear interpolation
    (d - 0.02) / (0.18 - 0.02) strictly in between; d = 0.10 gives 0.5. *)
Theorem calculate_volume_interpolation (hand : HandLandmarks)
    (thumb index_tip : NormalizedLandmark) :
  nth_error (landmark hand) 4 = Some thumb ->
  nth_error (landmark hand) 8 = Some index_tip ->
  let d := pinch_distance thumb index_tip in
  (d <= 0.02 -> calculate_volume hand = Return 0.0) /\
  (0.18 <= d -> calculate_volume hand = Return 1.0) /\
  (0.02 < d < 0.18 ->
   calculate_volume hand = Return ((d - 0.02) / (0.18 - 0.02))) /\
  (d = 0.10 -> calculate_volume hand = Return 0.5).
Proof.
  intros H4 H8 d.
  rewrite (calculate_volume_eq hand thumb index_tip H4 H8).
  cbv zeta. fold d.
  repeat split; intros Hd; f_equal;
    destruct (Rle_dec d 0.02); try lra; destruct (Rlt_dec d 0.18); lra.
Qed.

Lemma calculate_volume_interpolation_witness :
  calculate_volume (hand_with (mkLandmark 0.10 0.5 0) (mkLandmark 0 0.5 0.3))
  = Return 0.5.
Proof.
  apply (calculate_volume_interpolation
           (hand_with (mkLandmark 0.10 0.5 0) (mkLandmark 0 0.5 0.3))
           (mkLandmark 0.10 0.5 0) (mkLandmark 0 0.5 0.3));
    [reflexivity | reflexivity |].
  unfold pinch_distance; simpl.
  replace (0.10 - 0) with 0.10 by lra.
  replace (0.5 - 0.5) with 0 by lra.
  apply sqrt_square. lra.
Defined.

(** C10: [calculate_volume] reads only the x and y coordinates of landmarks
    4 and 8: two hands that agree on these four numbers give the same volume,
    whatever their other landmarks and all their z coordinates are. *)
Theorem calculate_volume_reads_xy_of_4_and_8 (h1 h2 : HandLandmarks)
    (t1 i1 t2 i2 : NormalizedLandmark) :
  nth_error (landmark h1) 4 = Some t1 ->
  nth_error (landmark h1) 8 = Some i1 ->
  nth_error (landmark h2) 4 = Some t2 ->
  nth_error (landmark h2) 8 = Some i2 ->
  x t1 = x t2 -> y t1 = y t2 -> x i1 = x i2 -> y i1 = y i2 ->
  calculate_volume h1 = calculate_volume h2.
Proof.
  intros A4 A8 B4 B8 Ex Ey Fx Fy.
  rewrite (calculate_volume_eq h1 t1 i1 A4 A8).
  rewrite (calculate_volume_eq h2 t2 i2 B4 B8).
  unfold pinch_distance. rewrite Ex, Ey, Fx, Fy. reflexivity.
Qed.

Lemma calculate_volume_reads_xy_of_4_and_8_witness :
  calculate_volume (hand_with (mkLandmark 0.3 0.4 0.9) (mkLandmark 0.2 0.5 (-7)))
  = calculate_volume
      (mkHand (repeat (mkLandmark 5 6 7) 4 ++ [mkLandmark 0.3 0.4 (-1)]
                 ++ repeat (mkLandmark 8 9 10) 3 ++ [mkLandmark 0.2 0.5 42])).
Proof.
  apply (calculate_volume_reads_xy_of_4_and_8 _ _
           (mkLandmark 0.3 0.4 0.9) (mkLandmark 0.2 0.5 (-7))
           (mkLandmark 0.3 0.4 (-1)) (mkLandmark 0.2 0.5 42));
    reflexivity.
Defined.

(** ** The smoother *)

Lemma smooth_pan_eq (val : R) (st : State) :
  smooth_pan val st =
  (Return (Py.mean (pushed val (pan_history st))),
   with_pan_history st (pushed val (pan_history st))).
Proof.
  unfold smooth_pan, pushed, bind, get, set_pan_history, pure, with_pan_history.
  cbn [pan_history camera is_running loops trace].
  destruct (SMOOTH <? length (pan_history st ++ [val]))%nat; reflexivity.
Qed.

Lemma feed_cons (v : R) (vals : list R) (st : State) :
  feed (v :: vals) st =
  let st' := with_pan_history st (pushed v (pan_history st)) in
  match feed vals st' with
  | (Return os, st'') => (Return (Py.mean (pushed v (pan_history st)) :: os), st'')
  | (Raise e, st'') => (Raise e, st'')
  end.
Proof.
  cbn [feed]. unfold bind at 1. rewrite smooth_pan_eq. cbv zeta.
  unfold bind, pure.
  destruct (feed vals _) as [[os|e] st'']; reflexivity.
Qed.

Lemma pushed_length (val : R) (h : list R) :
  (length h <= SMOOTH)%nat -> (length (pushed val h) <= SMOOTH)%nat.
Proof.
  intros Hle. unfold pushed. cbv zeta.
  destruct (SMOOTH <? length (h ++ [val]))%nat eqn:E.
  - destruct h as [|a h]; cbn in *; [lia|].
    rewrite length_app in *. cbn in *. lia.
  - apply Nat.ltb_ge in E. exact E.
Qed.

Lemma feed_returns (vals : list R) (st : State) :
  exists os st', feed vals st = (Return os, st') /\
    length os = length vals /\
    ((length (pan_history st) <= SMOOTH)%nat ->
     (length (pan_history st') <= SMOOTH)%nat).
Proof.
  revert st. induction vals as [|v vals IH]; intros st.
  - exists [], st. repeat split; auto.
  - rewrite feed_cons. cbv zeta.
    destruct (IH (with_pan_history st (pushed v (pan_history st))))
      as (os & st' & E & Hlen & Hle).
    rewrite E. eexists _, st'. split; [reflexivity|]. split.
    + cbn. now rewrite Hlen.
    + intros H. apply Hle. cbn. now apply pushed_length.
Qed.

Lemma mean_ones6 : Py.mean [1; 1; 1; 1; 1; 1] = 1.
Proof. unfold Py.mean, Py.sum. cbn. lra. Qed.

(** C4: [smooth_pan] appends its argument to the history, drops the oldest
    element when that makes more than 6, and returns the arithmetic mean of
    what is left; with at most 6 elements before a sequence of calls the
    history has at most 6 after it (so always, from the empty history of a
    fresh process); seven 1s give 1 at the 6th and 7th call (at every call
    from the empty history); 0,0,0,0,0,1 from the empty history gives 1/6. *)
Theorem smooth_pan_moving_average :
  (forall val st,
      smooth_pan val st =
      (Return (Py.sum (pushed val (pan_history st))
               / INR (length (pushed val (pan_history st)))),
       with_pan_history st (pushed val (pan_history st)))) /\
  (forall val h,
      (length h < 6)%nat -> pushed val h = h ++ [val]) /\
  (forall val oldest h,
      length (oldest :: h) = 6%nat -> pushed val (oldest :: h) = h ++ [val]) /\
  (forall vals st,
      (length (pan_history st) <= 6)%nat ->
      (length (pan_history (snd (feed vals st))) <= 6)%nat) /\
  (forall vals, (length (pan_history (snd (feed vals initial))) <= 6)%nat) /\
  (forall st,
      (length (pan_history st) <= 6)%nat ->
      exists o1 o2 o3 o4 o5,
        fst (feed [1; 1; 1; 1; 1; 1; 1] st) = Return [o1; o2; o3; o4; o5; 1; 1]) /\
  fst (feed [1; 1; 1; 1; 1; 1; 1] initial) = Return [1; 1; 1; 1; 1; 1; 1] /\
  fst (feed [0; 0; 0; 0; 0; 1] initial) = Return [0; 0; 0; 0; 0; 1 / 6].
Proof.
  assert (Hcap : forall vals st,
             (length (pan_history st) <= 6)%nat ->
             (length (pan_history (snd (feed vals st))) <= 6)%nat).
  { intros vals st H.
    destruct (feed_returns vals st) as (os & st' & E & _ & Hle).
    rewrite E. now apply Hle. }
  split; [exact smooth_pan_eq|].
  split.
  { intros val h Hlt. unfold pushed. cbv zeta.
    replace (SMOOTH <? length (h ++ [val]))%nat with false; [reflexivity|].
    symmetry. apply Nat.ltb_ge. rewrite length_app. unfold SMOOTH. cbn. lia. }
  split.
  { intros val oldest h Hlen. unfold pushed. cbv zeta.
    replace (SMOOTH <? length ((oldest :: h) ++ [val]))%nat with true;
      [reflexivity|].
    symmetry. apply Nat.ltb_lt. rewrite length_app, Hlen. unfold SMOOTH.
    cbn. lia. }
  split; [exact Hcap|].
  split; [intros vals; apply Hcap; cbn; lia|].
  split.
  { intros [c r h l t] Hlen. cbn [pan_history] in Hlen.
    do 7 (destruct h as [|? h]; [feed_compute; rewrite mean_ones6;
                                 do 5 eexists; reflexivity|]).
    cbn in Hlen. lia. }
  split.
  - feed_compute. repeat f_equal; mean_compute.
  - feed_compute. repeat f_equal; mean_compute.
Qed.

(** ** One pass of the loop *)

(** The body appends to the history first; it then either raises, and has
    published nothing, or publishes the payload and the frame, in this
    order. *)
Lemma camera_loop_body_eq (t : Tick) (st : State) :
  let st1 := with_pan_history st (tick_history t (pan_history st)) in
  match tick_confidence t, tick_volume t with
  | Return c, Return v =>
      exists ov,
        camera_loop_body t st =
        (Return tt,
         with_trace st1
           (trace st
              ++ [Emit (audio_update (tick_pan t (pan_history st)) v c);
                  Emit (video_frame (mkFrame (flip (frame t)) ov))]))
  | Raise e, _ => camera_loop_body t st = (Raise e, st1)
  | Return _, Raise e => camera_loop_body t st = (Raise e, st1)
  end.
Proof.
  destruct st as [c r h l tr].
  unfold tick_confidence, tick_volume, tick_pan, tick_history, camera_loop_body.
  destruct (detections t) as [|det dets].
  - destruct (multi_hand_landmarks t) as [|hand hands];
      [|destruct (calculate_volume hand) as [v|e] eqn:E];
      cbv zeta; body_compute; try rewrite E;
      try (replace 0.0 with 0 by lra); try (replace 1.0 with 1 by lra);
      try rewrite <- app_assoc; try eexists; reflexivity.
  - fold (box_pan (relative_bounding_box det)).
    destruct (index (score det) 0) as [cf|e] eqn:Es;
      (destruct (multi_hand_landmarks t) as [|hand hands];
       [|destruct (calculate_volume hand) as [v|e'] eqn:E]);
      cbv zeta;
      unfold bind at 1; unfold bind at 1; rewrite smooth_pan_eq;
      unfold bind at 1; unfold lift at 1;
      body_compute; try rewrite E;
      try (replace 1.0 with 1 by lra);
      try rewrite <- app_assoc; try eexists; reflexivity.
Qed.

Lemma index_in_range {A : Type} (l : list A) (n : nat) :
  (n < length l)%nat -> exists a, index l n = Return a.
Proof.
  intros Hn. unfold index.
  destruct (nth_error l n) as [a|] eqn:E.
  - now exists a.
  - apply nth_error_None in E. lia.
Qed.

Lemma calculate_volume_returns (hand : HandLandmarks) :
  (8 < length (landmark hand))%nat -> exists v, calculate_volume hand = Return v.
Proof.
  intros Hlen.
  destruct (nth_error (landmark hand) 4) as [a|] eqn:E4;
    [|apply nth_error_None in E4; lia].
  destruct (nth_error (landmark hand) 8) as [b|] eqn:E8;
    [|apply nth_error_None in E8; lia].
  rewrite (calculate_volume_eq hand a b E4 E8). eexists. reflexivity.
Qed.

Lemma well_formed_returns (t : Tick) :
  well_formed t ->
  exists c v, tick_confidence t = Return c /\ tick_volume t = Return v.
Proof.
  intros [Hf Hh]. unfold tick_confidence, tick_volume.
  assert (exists c, match detections t with
                    | [] => Return 0
                    | det :: _ => index (score det) 0
                    end = Return c) as [c Hc].
  { destruct (detections t) as [|det ?]; [now exists 0|].
    destruct (score det) as [|s ?]; [easy|]. now exists s. }
  assert (exists v, match multi_hand_landmarks t with
                    | [] => Return 1
                    | hand :: _ => calculate_volume hand
                    end = Return v) as [v Hv].
  { destruct (multi_hand_landmarks t) as [|hand ?]; [now exists 1|].
    now apply calculate_volume_returns. }
  exists c, v. now split.
Qed.

Lemma camera_loop_iteration_stopped (t : Tick) (st : State) :
  is_running st = false \/ camera st = None ->
  camera_loop_iteration t st = (Return Break, st).
Proof.
  intros H. unfold camera_loop_iteration, bind, get, pure.
  destruct H as [-> | ->]; [reflexivity|].
  now rewrite andb_false_r.
Qed.

Lemma camera_loop_iteration_no_frame (t : Tick) (st : State) :
  live st -> ret t = false ->
  camera_loop_iteration t st = (Return Continue, st).
Proof.
  intros [Hr Hc] Hret. unfold camera_loop_iteration, bind, get, pure.
  rewrite Hr, Hret. destruct (camera st); [reflexivity|easy].
Qed.

Lemma camera_loop_iteration_frame (t : Tick) (st : State) :
  live st -> ret t = true ->
  camera_loop_iteration t st =
  match camera_loop_body t st with
  | (Return _, st') => (Return Continue, st')
  | (Raise e, st') => (Raise e, st')
  end.
Proof.
  intros [Hr Hc] Hret. unfold camera_loop_iteration, bind at 1, get.
  rewrite Hr, Hret. destruct (camera st); [|easy].
  cbn. unfold bind, pure. destruct (camera_loop_body t st) as [[[]|e] st'];
    reflexivity.
Qed.

(** A pass over a captured frame, by what the detectors' messages give. *)
Lemma camera_loop_iteration_eq (t : Tick) (st : State) :
  live st -> ret t = true ->
  let st1 := with_pan_history st (tick_history t (pan_history st)) in
  match tick_confidence t, tick_volume t with
  | Return c, Return v =>
      exists ov,
        camera_loop_iteration t st =
        (Return Continue,
         with_trace st1
           (trace st
              ++ [Emit (audio_update (tick_pan t (pan_history st)) v c);
                  Emit (video_frame (mkFrame (flip (frame t)) ov))]))
  | Raise e, _ => camera_loop_iteration t st = (Raise e, st1)
  | Return _, Raise e => camera_loop_iteration t st = (Raise e, st1)
  end.
Proof.
  intros Hlive Hret. rewrite (camera_loop_iteration_frame t st Hlive Hret).
  pose proof (camera_loop_body_eq t st) as H. cbv zeta in *.
  destruct (tick_confidence t) as [c|e], (tick_volume t) as [v|e'];
    try (rewrite H; reflexivity).
  destruct H as [ov H]. exists ov. rewrite H. reflexivity.
Qed.

Lemma iteration_history (t : Tick) (st : State) :
  live st -> ret t = true ->
  pan_history (snd (camera_loop_iteration t st)) =
  tick_history t (pan_history st).
Proof.
  intros Hlive Hret.
  pose proof (camera_loop_iteration_eq t st Hlive Hret) as H. cbv zeta in H.
  destruct (tick_confidence t) as [c|e], (tick_volume t) as [v|e'];
    try (rewrite H; reflexivity).
  destruct H as [ov H]. rewrite H. reflexivity.
Qed.

Lemma pushed_last (val d : R) (h : list R) : last (pushed val h) d = val.
Proof.
  unfold pushed. cbv zeta.
  destruct (SMOOTH <? length (h ++ [val]))%nat eqn:E.
  - destruct h as [|a h].
    + cbn in E. discriminate.
    + cbn [app tl]. apply last_last.
  - apply last_last.
Qed.

Lemma pushed_not_nil (val : R) (h : list R) : pushed val h <> [].
Proof.
  unfold pushed. cbv zeta.
  destruct (SMOOTH <? length (h ++ [val]))%nat eqn:E.
  - destruct h as [|a h]; [cbn in E; discriminate|].
    cbn [app tl]. destruct h; discriminate.
  - destruct h; discriminate.
Qed.

Lemma box_pan_clamp (box : RelativeBoundingBox) :
  box_pan box = clamp (-1) 1 (((xmin box + width box / 2) * 2 - 1) * 3.0).
Proof. unfold box_pan. apply py_clamp. lra. Qed.

Lemma tracking_live (h : list R) : live (tracking h).
Proof. split; [reflexivity|discriminate]. Qed.

(** C2: on a tick with a detected face, the pan that goes into the smoother
    is ((cx*2 - 1) * 3.0) clamped to [-1, 1], with cx = xmin + width/2; a box
    with xmin = 0.0 and width = 0.2 has cx = 0.1, raw value -2.4 and
    pan -1.0. *)
Theorem pan_before_smoothing (t : Tick) (st : State)
    (det : Detection) (dets : list Detection) :
  live st -> ret t = true -> detections t = det :: dets ->
  let box := relative_bounding_box det in
  let cx := xmin box + width box / 2 in
  let pre := clamp (-1) 1 ((cx * 2 - 1) * 3.0) in
  pan_history (snd (camera_loop_iteration t st)) = pushed pre (pan_history st) /\
  last (pan_history (snd (camera_loop_iteration t st))) 0 = pre /\
  (xmin box = 0.0 -> width box = 0.2 ->
   cx = 0.1 /\ (cx * 2 - 1) * 3.0 = - 2.4 /\ pre = - 1.0).
Proof.
  intros Hlive Hret Hdet box cx pre.
  assert (Hh : pan_history (snd (camera_loop_iteration t st))
               = pushed pre (pan_history st)).
  { rewrite iteration_history by assumption.
    unfold tick_history. rewrite Hdet. now rewrite box_pan_clamp. }
  split; [exact Hh|]. split.
  - rewrite Hh. apply pushed_last.
  - intros Hx Hw. subst pre cx. rewrite Hx, Hw.
    split; [lra|]. split; [lra|].
    unfold clamp. destruct (Rlt_dec ((((0.0 + 0.2 / 2) * 2) - 1) * 3.0) (-1));
      lra.
Qed.

Lemma pan_before_smoothing_witness :
  last (pan_history (snd (camera_loop_iteration face_far_left (tracking [])))) 0
  = - 1.0.
Proof.
  destruct (pan_before_smoothing face_far_left (tracking [])
              (mkDetection (mkBox 0.0 0.3 0.2 0.25) [0.9]) []
              (tracking_live []) eq_refl eq_refl) as (_ & Hlast & Hbox).
  rewrite Hlast. apply Hbox; reflexivity.
Defined.

(** ** Failed reads *)

(** C7: when [camera.read()] returns no frame, the pass ends at [continue]:
    nothing is published, the history and the rest of the state are as they
    were, the thread stays alive, and the loop goes on with the next pass
    for as long as its condition holds. *)
Theorem failed_read_skips_tick (t : Tick) (st : State) :
  live st -> ret t = false ->
  camera_loop_iteration t st = (Return Continue, st) /\
  published (snd (camera_loop_iteration t st)) = published st /\
  pan_history (snd (camera_loop_iteration t st)) = pan_history st /\
  (forall ticks, camera_loop (t :: ticks) st = camera_loop ticks st) /\
  ((0 < loops st)%nat ->
   step st (LoopPass t) = st /\
   forall gs, run st (LoopPass t :: gs) = run st gs).
Proof.
  intros Hlive Hret.
  pose proof (camera_loop_iteration_no_frame t st Hlive Hret) as E.
  rewrite E. cbn [snd].
  assert (Hstep : (0 < loops st)%nat -> step st (LoopPass t) = st).
  { intros Hl. cbn [step]. destruct (loops st); [lia|]. now rewrite E. }
  repeat split; auto.
  - intros ticks. cbn [camera_loop]. unfold bind. now rewrite E.
  - intros gs. unfold run. cbn [fold_left]. now rewrite Hstep.
Qed.

Lemma failed_read_skips_tick_witness :
  camera_loop_iteration no_frame (tracking [0.5])
  = (Return Continue, tracking [0.5]).
Proof.
  apply (failed_read_skips_tick no_frame (tracking [0.5])
           (tracking_live [0.5]) eq_refl).
Defined.

(** ** Publishing *)

Lemma published_emitted (st' st : State) (evs : list Event) :
  published (with_trace st' (trace st ++ map Emit evs)) = published st ++ evs.
Proof.
  unfold published, with_trace. cbn [trace]. rewrite flat_map_app. f_equal.
  induction evs as [|e evs IH]; [reflexivity|]. cbn. now rewrite IH.
Qed.

Lemma published_pair (st' st : State) (a b : Event) :
  published (with_trace st' (trace st ++ [Emit a; Emit b]))
  = published st ++ [a; b].
Proof. exact (published_emitted st' st [a; b]). Qed.

(** C8: a pass over a captured frame publishes exactly two events, first
    [audio_update] with pan, volume and confidence, then [video_frame] with
    that tick's frame. *)
Theorem signal_then_frame (t : Tick) (st : State) :
  live st -> ret t = true -> well_formed t ->
  exists pan volume confidence ov,
    trace (snd (camera_loop_iteration t st)) =
    trace st ++ [Emit (audio_update pan volume confidence);
                 Emit (video_frame (mkFrame (flip (frame t)) ov))] /\
    published (snd (camera_loop_iteration t st)) =
    published st ++ [audio_update pan volume confidence;
                     video_frame (mkFrame (flip (frame t)) ov)] /\
    pan = tick_pan t (pan_history st) /\
    tick_volume t = Return volume /\
    tick_confidence t = Return confidence.
Proof.
  intros Hlive Hret Hwf.
  destruct (well_formed_returns t Hwf) as (c & v & Hc & Hv).
  pose proof (camera_loop_iteration_eq t st Hlive Hret) as H. cbv zeta in H.
  rewrite Hc, Hv in H. destruct H as [ov H].
  exists (tick_pan t (pan_history st)), v, c, ov.
  rewrite H. cbn [snd with_trace trace].
  repeat split; auto.
  apply published_pair.
Qed.

Lemma pinching_face_well_formed : well_formed pinching_face.
Proof. split; cbn; [discriminate|lia]. Qed.

Lemma signal_then_frame_witness :
  exists pan volume confidence ov,
    trace (snd (camera_loop_iteration pinching_face (tracking []))) =
    [Emit (audio_update pan volume confidence);
     Emit (video_frame (mkFrame [[(4, 5, 6); (1, 2, 3)]%Z] ov))].
Proof.
  destruct (signal_then_frame pinching_face (tracking [])
              (tracking_live []) eq_refl pinching_face_well_formed)
    as (pan & volume & confidence & ov & H & _).
  exists pan, volume, confidence, ov. exact H.
Defined.

(** ** Ticks without a face or without a hand *)

(** C6: on a tick without a face the published confidence is 0.0, and on a
    tick without a hand the published volume is 1.0, whatever the other
    detector found. *)
Theorem missing_detection_defaults (t : Tick) (st : State) :
  live st -> ret t = true -> well_formed t ->
  exists pan volume confidence f,
    published (snd (camera_loop_iteration t st)) =
    published st ++ [audio_update pan volume confidence; video_frame f] /\
    (detections t = [] -> confidence = 0.0) /\
    (multi_hand_landmarks t = [] -> volume = 1.0).
Proof.
  intros Hlive Hret Hwf.
  destruct (well_formed_returns t Hwf) as (c & v & Hc & Hv).
  pose proof (camera_loop_iteration_eq t st Hlive Hret) as H. cbv zeta in H.
  rewrite Hc, Hv in H. destruct H as [ov H].
  exists (tick_pan t (pan_history st)), v, c, (mkFrame (flip (frame t)) ov).
  rewrite H. cbn [snd]. split; [apply published_pair|].
  split.
  - intros Hnone. unfold tick_confidence in Hc. rewrite Hnone in Hc.
    injection Hc as <-. lra.
  - intros Hnone. unfold tick_volume in Hv. rewrite Hnone in Hv.
    injection Hv as <-. lra.
Qed.

Lemma nobody_well_formed : well_formed nobody.
Proof. split; exact I. Qed.

Lemma missing_detection_defaults_witness :
  exists pan f,
    published (snd (camera_loop_iteration nobody (tracking [0.5]))) =
    [audio_update pan 1.0 0.0; video_frame f].
Proof.
  destruct (missing_detection_defaults nobody (tracking [0.5])
              (tracking_live [0.5]) eq_refl nobody_well_formed)
    as (pan & volume & confidence & f & Hp & Hc & Hv).
  exists pan, f. rewrite Hp, (Hc eq_refl), (Hv eq_refl). reflexivity.
Defined.

Lemma last_pan_app (evs : list Event) (pan volume confidence : R) (f : Frame) :
  last_pan (evs ++ [audio_update pan volume confidence; video_frame f])
  = Some pan.
Proof.
  induction evs as [|[p v c|g] evs IH]; cbn; [reflexivity| |exact IH].
  cbn in IH. now rewrite IH.
Qed.

Lemma face_far_right_pan : tick_pan face_far_right [] = 1.
Proof.
  unfold tick_pan, tick_history, face_far_right. cbn [detections].
  cbn [relative_bounding_box]. rewrite box_pan_clamp. cbn [xmin width].
  unfold clamp.
  destruct (Rlt_dec (((0.9 + 0.2 / 2) * 2 - 1) * 3.0) (-1)); [lra|].
  destruct (Rlt_dec 1 (((0.9 + 0.2 / 2) * 2 - 1) * 3.0)); [|lra].
  unfold pushed, Py.mean, Py.sum. cbn. lra.
Qed.

(** C3 fails as stated: after a face at the right edge has been published
    with pan 1, a tick without a face publishes pan 0. *)
Lemma pan_held_counterexample :
  detections nobody = [] /\
  last_pan (published (snd (camera_loop_iteration face_far_right (tracking []))))
  = Some 1 /\
  last_pan
    (published
       (snd (camera_loop_iteration nobody
               (snd (camera_loop_iteration face_far_right (tracking []))))))
  = Some 0 /\
  ~ pan_held (snd (camera_loop_iteration face_far_right (tracking []))) nobody.
Proof.
  pose proof (camera_loop_iteration_eq face_far_right (tracking [])
                (tracking_live []) eq_refl) as H1.
  cbv zeta in H1. cbn [tick_confidence tick_volume face_far_right detections
    multi_hand_landmarks score index nth_error] in H1.
  destruct H1 as [ov1 H1]. fold face_far_right in H1.
  change (pan_history (tracking [])) with (@nil R) in H1.
  rewrite face_far_right_pan in H1.
  rewrite H1. cbn [snd].
  set (st1 := with_trace _ _).
  assert (Hlive : live st1) by (split; [reflexivity|discriminate]).
  pose proof (camera_loop_iteration_eq nobody st1 Hlive eq_refl) as H2.
  cbv zeta in H2. cbn [tick_confidence tick_volume tick_pan nobody detections
    multi_hand_landmarks] in H2.
  destruct H2 as [ov2 H2]. fold nobody in H2. rewrite H2. cbn [snd].
  assert (E1 : last_pan (published st1) = Some 1).
  { unfold st1. rewrite published_pair.
    apply last_pan_app. }
  assert (E2 : last_pan (published (with_trace
                (with_pan_history st1 (tick_history nobody (pan_history st1)))
                (trace st1 ++ [Emit (audio_update 0 1 0);
                   Emit (video_frame (mkFrame (flip (frame nobody)) ov2))])))
               = Some 0).
  { rewrite published_pair. apply last_pan_app. }
  split; [reflexivity|]. split; [exact E1|]. split; [exact E2|].
  intros Hheld. specialize (Hheld 1 E1). rewrite H2 in Hheld. cbn [snd] in Hheld.
  rewrite E2 in Hheld. injection Hheld as Hheld. lra.
Qed.

(** C3, as the code has it: a tick without a face publishes pan 0.0, the
    value the body starts from, whatever was published before; the history
    is not appended to, so the next face is smoothed against the history as
    the last face left it. *)
Theorem no_face_publishes_zero_pan (t : Tick) (st : State) :
  live st -> ret t = true -> detections t = [] -> well_formed t ->
  (exists volume f,
      published (snd (camera_loop_iteration t st)) =
      published st ++ [audio_update 0.0 volume 0.0; video_frame f]) /\
  last_pan (published (snd (camera_loop_iteration t st))) = Some 0.0 /\
  pan_history (snd (camera_loop_iteration t st)) = pan_history st.
Proof.
  intros Hlive Hret Hnone Hwf.
  destruct (well_formed_returns t Hwf) as (c & v & Hc & Hv).
  pose proof (camera_loop_iteration_eq t st Hlive Hret) as H. cbv zeta in H.
  rewrite Hc, Hv in H. destruct H as [ov H].
  unfold tick_confidence in Hc. rewrite Hnone in Hc. injection Hc as <-.
  unfold tick_pan, tick_history in H. rewrite Hnone in H.
  rewrite H. cbn [snd].
  rewrite published_pair.
  replace 0.0 with 0 by lra.
  split; [now exists v, (mkFrame (flip (frame t)) ov)|].
  split; [apply last_pan_app|reflexivity].
Qed.

Lemma no_face_publishes_zero_pan_witness :
  last_pan (published (snd (camera_loop_iteration nobody (tracking [1; 1]))))
  = Some 0.0 /\
  pan_history (snd (camera_loop_iteration nobody (tracking [1; 1]))) = [1; 1].
Proof.
  destruct (no_face_publishes_zero_pan nobody (tracking [1; 1])
              (tracking_live [1; 1]) eq_refl eq_refl nobody_well_formed)
    as (_ & Hpan & Hh).
  split; [exact Hpan|exact Hh].
Defined.

(** ** Ranges *)

Lemma sum_bounds (h : list R) :
  Forall pan_range h -> - INR (length h) <= Py.sum h <= INR (length h).
Proof.
  induction 1 as [|a h Ha _ IH].
  - cbn. lra.
  - unfold pan_range in Ha. change (Py.sum (a :: h)) with (a + Py.sum h).
    change (length (a :: h)) with (S (length h)). rewrite S_INR. lra.
Qed.

Lemma mean_bounds (h : list R) :
  Forall pan_range h -> h <> [] -> pan_range (Py.mean h).
Proof.
  intros Hall Hne. pose proof (sum_bounds h Hall) as Hs.
  assert (Hpos : 0 < INR (length h)).
  { apply lt_0_INR. destruct h; [easy|cbn; lia]. }
  unfold pan_range, Py.mean. split.
  - apply Rmult_le_reg_r with (INR (length h)); [exact Hpos|].
    unfold Rdiv. rewrite Rmult_assoc, Rinv_l by lra. lra.
  - apply Rmult_le_reg_r with (INR (length h)); [exact Hpos|].
    unfold Rdiv. rewrite Rmult_assoc, Rinv_l by lra. lra.
Qed.

Lemma pushed_range (val : R) (h : list R) :
  pan_range val -> Forall pan_range h -> Forall pan_range (pushed val h).
Proof.
  intros Hv Hh. unfold pushed. cbv zeta.
  assert (Hall : Forall pan_range (h ++ [val])).
  { apply Forall_app. split; [exact Hh|]. now constructor. }
  destruct (SMOOTH <? length (h ++ [val]))%nat; [|exact Hall].
  destruct (h ++ [val]); [constructor|]. now inversion Hall.
Qed.

Lemma box_pan_range (box : RelativeBoundingBox) : pan_range (box_pan box).
Proof. rewrite box_pan_clamp. apply clamp_bounds. lra. Qed.

Lemma calculate_volume_range (hand : HandLandmarks) (v : R) :
  calculate_volume hand = Return v -> volume_range v.
Proof.
  unfold calculate_volume.
  destruct (index (landmark hand) 4) as [a|]; [|discriminate].
  destruct (index (landmark hand) 8) as [b|]; [|discriminate].
  cbv zeta. injection 1 as <-. rewrite py_clamp by lra.
  assert (Hle : 0.0 <= 1.0) by lra.
  unfold volume_range.
  match goal with
  | |- context [clamp _ _ ?w] => pose proof (clamp_bounds 0.0 1.0 w Hle)
  end.
  lra.
Qed.

Lemma tick_history_range (t : Tick) (h : list R) :
  Forall pan_range h -> Forall pan_range (tick_history t h).
Proof.
  intros Hh. unfold tick_history. destruct (detections t); [exact Hh|].
  apply pushed_range; [apply box_pan_range|exact Hh].
Qed.

Lemma tick_pan_range (t : Tick) (h : list R) :
  Forall pan_range h -> pan_range (tick_pan t h).
Proof.
  intros Hh. unfold tick_pan.
  destruct (detections t) eqn:E; [unfold pan_range; lra|].
  apply mean_bounds; [now apply tick_history_range|].
  unfold tick_history. rewrite E. apply pushed_not_nil.
Qed.

Lemma tick_volume_range (t : Tick) (v : R) :
  tick_volume t = Return v -> volume_range v.
Proof.
  unfold tick_volume. destruct (multi_hand_landmarks t).
  - injection 1 as <-. unfold volume_range. lra.
  - apply calculate_volume_range.
Qed.

Lemma start_tracking_eq (st : State) :
  start_tracking st =
  (Return tt,
   let cam := match camera st with
              | Some c => Some c
              | None => Some (mkCapture 0 frame_width frame_height)
              end in
   if is_running st
   then mkState cam true (pan_history st) (loops st) (trace st)
   else mkState cam true (pan_history st) (S (loops st))
          (trace st ++ [ThreadStart true])).
Proof.
  destruct st as [[c|] [|] h l tr]; reflexivity.
Qed.

Lemma camera_loop_iteration_range (t : Tick) (st : State) :
  in_range st -> in_range (snd (camera_loop_iteration t st)).
Proof.
  intros [Hh Hp].
  destruct (is_running st) eqn:Er;
    [|rewrite camera_loop_iteration_stopped by auto; now split].
  destruct (camera st) as [c|] eqn:Ec;
    [|rewrite camera_loop_iteration_stopped by auto; now split].
  assert (Hlive : live st) by (split; [exact Er|rewrite Ec; discriminate]).
  destruct (ret t) eqn:Eret;
    [|rewrite camera_loop_iteration_no_frame by auto; now split].
  pose proof (camera_loop_iteration_eq t st Hlive Eret) as H. cbv zeta in H.
  pose proof (tick_history_range t _ Hh) as Hh'.
  destruct (tick_confidence t) as [cf|e], (tick_volume t) as [v|e'] eqn:Ev;
    try (rewrite H; now split).
  destruct H as [ov H]. rewrite H. split; [exact Hh'|].
  cbn [snd]. rewrite published_pair. apply Forall_app. split; [exact Hp|].
  constructor; [|constructor; [exact I|constructor]].
  split; [now apply tick_pan_range|now apply (tick_volume_range t)].
Qed.

Lemma step_range (st : State) (g : Trigger) :
  in_range st -> in_range (step st g).
Proof.
  intros Hin. destruct g as [| |t]; cbn [step].
  - rewrite start_tracking_eq. cbn [snd]. destruct Hin as [Hh Hp].
    destruct (is_running st); split; unfold published in *; cbn [pan_history trace];
      try assumption.
    rewrite flat_map_app. cbn. now rewrite app_nil_r.
  - exact Hin.
  - destruct (loops st); [exact Hin|].
    pose proof (camera_loop_iteration_range t st Hin) as H.
    destruct (camera_loop_iteration t st) as [[[|]|e] st']; exact H.
Qed.

Lemma run_range (gs : list Trigger) (st : State) :
  in_range st -> in_range (run st gs).
Proof.
  revert st. induction gs as [|g gs IH]; intros st Hin; [exact Hin|].
  apply IH. now apply step_range.
Qed.

(** C5: whatever clients trigger and whatever the camera and the detectors
    return, every payload that the process has published has its pan in
    [-1, 1] and its volume in [0, 1], and every value in the smoothing
    history is in [-1, 1]: the pan goes into the history clamped, and a mean
    of values in [-1, 1] is in [-1, 1]. *)
Theorem published_signals_in_range (gs : list Trigger) :
  Forall payload_in_range (published (run initial gs)) /\
  Forall pan_range (pan_history (run initial gs)) /\
  (forall box, pan_range (box_pan box)) /\
  (forall h, Forall pan_range h -> h <> [] -> pan_range (Py.mean h)) /\
  (forall hand v, calculate_volume hand = Return v -> volume_range v).
Proof.
  assert (Hin : in_range (run initial gs)).
  { apply run_range. split; constructor. }
  destruct Hin as [Hh Hp].
  split; [exact Hp|]. split; [exact Hh|].
  split; [exact box_pan_range|].
  split; [exact mean_bounds|exact calculate_volume_range].
Qed.

(** ** The session *)

(** A pass of the loop leaves the camera handle and the flag alone. *)
Lemma camera_loop_iteration_session (t : Tick) (st : State) :
  camera (snd (camera_loop_iteration t st)) = camera st /\
  is_running (snd (camera_loop_iteration t st)) = is_running st /\
  loops (snd (camera_loop_iteration t st)) = loops st.
Proof.
  destruct (is_running st) eqn:Er;
    [|rewrite camera_loop_iteration_stopped by auto; auto].
  destruct (camera st) as [c|] eqn:Ec;
    [|rewrite camera_loop_iteration_stopped by auto; auto].
  assert (Hlive : live st) by (split; [exact Er|rewrite Ec; discriminate]).
  destruct (ret t) eqn:Eret;
    [|rewrite camera_loop_iteration_no_frame by auto; auto].
  pose proof (camera_loop_iteration_eq t st Hlive Eret) as H. cbv zeta in H.
  destruct (tick_confidence t) as [cf|e], (tick_volume t) as [v|e'];
    try (rewrite H; cbn; auto).
  destruct H as [ov H]. rewrite H. cbn. auto.
Qed.

Lemma step_single_loop (st : State) (g : Trigger) :
  g <> Disconnect -> single_loop st -> single_loop (step st g).
Proof.
  intros Hg (Hle & Hoff & Hon). destruct g as [| |t]; [| easy |]; cbn [step].
  - rewrite start_tracking_eq. cbn [snd].
    destruct (is_running st) eqn:Er; unfold single_loop;
      cbn [loops is_running camera].
    + repeat split; [exact Hle|discriminate|].
      intros _. destruct (camera st); discriminate.
    + rewrite (Hoff eq_refl). repeat split; [lia|discriminate|].
      intros _. destruct (camera st); discriminate.
  - destruct (loops st) as [|n] eqn:El.
    + unfold single_loop. rewrite El. auto.
    + destruct (camera_loop_iteration_session t st) as (Hc & Hr & Hl).
      destruct (camera_loop_iteration t st) as [[[|]|e] st']; cbn [snd] in *;
        unfold single_loop, thread_exit; cbn [loops is_running camera];
        rewrite Hc, Hr, Hl; repeat split; auto; try lia;
        intros Hfalse; specialize (Hoff Hfalse); lia.
Qed.

Lemma run_single_loop (gs : list Trigger) (st : State) :
  Forall (fun g => g <> Disconnect) gs ->
  single_loop st -> single_loop (run st gs).
Proof.
  intros Hgs. revert st.
  induction Hgs as [|g gs Hg _ IH]; intros st Hst; [exact Hst|].
  apply IH. now apply step_single_loop.
Qed.

(** Whatever has happened: the flag is only ever set on an open camera. *)
Lemma camera_once_running (gs : list Trigger) :
  is_running (run initial gs) = true -> camera (run initial gs) <> None.
Proof.
  assert (H : forall gs st,
             (is_running st = true -> camera st <> None) ->
             is_running (run st gs) = true -> camera (run st gs) <> None).
  { clear gs. induction gs as [|g gs IH]; intros st Hst; [exact Hst|].
    apply IH. destruct g as [| |t]; cbn [step].
    - rewrite start_tracking_eq. cbn [snd].
      destruct (is_running st), (camera st); cbn; intros; discriminate.
    - cbn. discriminate.
    - destruct (loops st); [exact Hst|].
      destruct (camera_loop_iteration_session t st) as (Hc & Hr & _).
      destruct (camera_loop_iteration t st) as [[[|]|e] st']; cbn [snd] in *;
        unfold thread_exit; cbn [is_running camera]; rewrite Hc, Hr;
        exact Hst. }
  apply H. cbn. discriminate.
Qed.

Lemma start_tracking_again (st : State) :
  is_running st = true -> camera st <> None -> snd (start_tracking st) = st.
Proof.
  intros Hr Hc. rewrite start_tracking_eq. cbn [snd].
  destruct st as [[c|] r h l tr]; cbn in *; [now subst r|easy].
Qed.

(** C9: the start handler starts a loop thread exactly when it finds the
    flag false, and the thread is started with the flag already true; a
    start that finds the flag true (hence, in a process that has run from its
    initial state, a camera handle) changes nothing; so however many start
    triggers arrive, also between passes of the loop, at most one loop
    thread is alive. *)
Theorem start_tracking_at_most_one_loop :
  (forall st,
      is_running st = false ->
      is_running (snd (start_tracking st)) = true /\
      loops (snd (start_tracking st)) = S (loops st) /\
      trace (snd (start_tracking st)) = trace st ++ [ThreadStart true]) /\
  (forall st,
      is_running st = true ->
      is_running (snd (start_tracking st)) = true /\
      loops (snd (start_tracking st)) = loops st /\
      trace (snd (start_tracking st)) = trace st) /\
  (forall st,
      is_running st = true -> camera st <> None ->
      snd (start_tracking st) = st) /\
  (forall gs,
      is_running (run initial gs) = true -> camera (run initial gs) <> None) /\
  (forall n, run initial (repeat StartTracking (S n)) = run initial [StartTracking]) /\
  (forall n, (loops (run initial (repeat StartTracking n)) <= 1)%nat) /\
  (forall gs,
      Forall (fun g => g <> Disconnect) gs ->
      (loops (run initial gs) <= 1)%nat).
Proof.
  split.
  { intros st Hr. rewrite start_tracking_eq. cbn [snd]. rewrite Hr. cbn. auto. }
  split.
  { intros st Hr. rewrite start_tracking_eq. cbn [snd]. rewrite Hr. cbn. auto. }
  split; [exact start_tracking_again|].
  split.
  { intros gs. apply camera_once_running. }
  split.
  { intros n.
    change (run initial (repeat StartTracking (S n)))
      with (run (step initial StartTracking) (repeat StartTracking n)).
    change (run initial [StartTracking]) with (step initial StartTracking).
    induction n as [|n IH]; [reflexivity|].
    change (run (step initial StartTracking) (repeat StartTracking (S n)))
      with (run (step (step initial StartTracking) StartTracking)
              (repeat StartTracking n)).
    exact IH. }
  assert (Hone : forall gs,
             Forall (fun g => g <> Disconnect) gs ->
             (loops (run initial gs) <= 1)%nat).
  { intros gs Hgs. apply (run_single_loop gs initial Hgs).
    split; [cbn; lia|]. split; [reflexivity|cbn; discriminate]. }
  split; [|exact Hone].
  intros n. apply Hone. apply Forall_forall. intros g Hin.
  apply repeat_spec in Hin. subst g. discriminate.
Qed.

(** Outside the start triggers: a disconnect followed by a start before the
    first loop has made its next pass starts a second loop next to it, and
    both then find the flag set. *)
Remark restart_before_loop_exit :
  loops (run initial [StartTracking; Disconnect; StartTracking]) = 2%nat /\
  is_running (run initial [StartTracking; Disconnect; StartTracking]) = true.
Proof. split; reflexivity. Qed.

(** A detection without a score, or a hand with fewer than nine landmarks,
    makes the pass raise [IndexError]: nothing is published and the thread
    is gone, with the flag still set. *)
Remark malformed_message_ends_loop (t : Tick) (st : State) (e : exn) :
  live st -> ret t = true -> (0 < loops st)%nat ->
  tick_confidence t = Raise e \/ tick_volume t = Raise e ->
  published (step st (LoopPass t)) = published st /\
  loops (step st (LoopPass t)) = pred (loops st) /\
  is_running (step st (LoopPass t)) = true.
Proof.
  intros Hlive Hret Hl Hraise. cbn [step].
  destruct (loops st) as [|n] eqn:El; [lia|].
  pose proof (camera_loop_iteration_eq t st Hlive Hret) as H. cbv zeta in H.
  destruct Hlive as [Hr _].
  destruct (tick_confidence t) as [c|e1], (tick_volume t) as [v|e2];
    try (destruct Hraise; discriminate);
    rewrite H; unfold thread_exit, published;
    cbn [trace loops is_running with_pan_history]; rewrite El; auto.
Qed.

(** * Further properties of the code *)

(** ** Pan as a function of the face position *)

Lemma pan_in_box_pan (t : Tick) (st : State)
    (det : Detection) (dets : list Detection) :
  live st -> ret t = true -> detections t = det :: dets ->
  pan_in t st = box_pan (relative_bounding_box det).
Proof.
  intros Hlive Hret Hdet. unfold pan_in.
  rewrite iteration_history by assumption.
  unfold tick_history. rewrite Hdet. apply pushed_last.
Qed.

Lemma box_pan_cases (box : RelativeBoundingBox) :
  (box_centre box <= 1 / 3 -> box_pan box = -1) /\
  (2 / 3 <= box_centre box -> box_pan box = 1) /\
  (1 / 3 <= box_centre box <= 2 / 3 -> box_pan box = 6 * box_centre box - 3).
Proof.
  rewrite box_pan_clamp. unfold box_centre, clamp.
  set (cx := xmin box + width box / 2).
  destruct (Rlt_dec ((cx * 2 - 1) * 3.0) (-1)),
    (Rlt_dec 1 ((cx * 2 - 1) * 3.0)); repeat split; intros; lra.
Qed.

(** X1: the sensitivity of 3 maps the middle third of the picture onto the
    whole pan range: a face centred at or left of 1/3 gives pan -1, at or
    right of 2/3 gives pan 1, and in between the pan is 6*cx - 3 (0 at the
    centre of the picture). *)
Theorem pan_saturates_outside_middle_third (t : Tick) (st : State)
    (det : Detection) (dets : list Detection) :
  live st -> ret t = true -> detections t = det :: dets ->
  let cx := box_centre (relative_bounding_box det) in
  (cx <= 1 / 3 -> pan_in t st = -1) /\
  (2 / 3 <= cx -> pan_in t st = 1) /\
  (1 / 3 <= cx <= 2 / 3 -> pan_in t st = 6 * cx - 3) /\
  (cx = 1 / 2 -> pan_in t st = 0).
Proof.
  intros Hlive Hret Hdet cx.
  rewrite (pan_in_box_pan t st det dets Hlive Hret Hdet).
  destruct (box_pan_cases (relative_bounding_box det)) as (Hl & Hr & Hm).
  fold cx in Hl, Hr, Hm.
  repeat split; auto.
  intros Hc. rewrite Hm; lra.
Qed.

Lemma pan_saturates_outside_middle_third_witness :
  pan_in (face_at (mkBox 0.4 0.3 0.2 0.25)) (tracking [1; 1]) = 0.
Proof.
  apply (pan_saturates_outside_middle_third
           (face_at (mkBox 0.4 0.3 0.2 0.25)) (tracking [1; 1])
           (mkDetection (mkBox 0.4 0.3 0.2 0.25) [0.9]) []
           (tracking_live [1; 1]) eq_refl eq_refl).
  unfold box_centre. cbn [relative_bounding_box xmin width]. lra.
Defined.

(** X2: the pan that goes into the smoother never decreases when the face
    centre moves right, and mirroring the centre about the middle of the
    picture negates it. *)
Theorem pan_monotone_and_odd (t1 t2 : Tick) (st1 st2 : State)
    (det1 det2 : Detection) (dets1 dets2 : list Detection) :
  live st1 -> ret t1 = true -> detections t1 = det1 :: dets1 ->
  live st2 -> ret t2 = true -> detections t2 = det2 :: dets2 ->
  let cx1 := box_centre (relative_bounding_box det1) in
  let cx2 := box_centre (relative_bounding_box det2) in
  (cx1 <= cx2 -> pan_in t1 st1 <= pan_in t2 st2) /\
  (cx2 = 1 - cx1 -> pan_in t2 st2 = - pan_in t1 st1).
Proof.
  intros L1 R1 D1 L2 R2 D2 cx1 cx2.
  rewrite (pan_in_box_pan t1 st1 det1 dets1 L1 R1 D1).
  rewrite (pan_in_box_pan t2 st2 det2 dets2 L2 R2 D2).
  rewrite !box_pan_clamp. fold (box_centre (relative_bounding_box det1)).
  fold (box_centre (relative_bounding_box det2)). fold cx1 cx2.
  unfold clamp.
  destruct (Rlt_dec ((cx1 * 2 - 1) * 3.0) (-1)),
    (Rlt_dec 1 ((cx1 * 2 - 1) * 3.0)),
    (Rlt_dec ((cx2 * 2 - 1) * 3.0) (-1)),
    (Rlt_dec 1 ((cx2 * 2 - 1) * 3.0)); split; intros; lra.
Qed.

Lemma pan_monotone_and_odd_witness :
  pan_in (face_at (mkBox 0.3 0.3 0.2 0.25)) (tracking [])
  <= pan_in (face_at (mkBox 0.5 0.1 0.2 0.25)) (tracking [0.5]) /\
  pan_in (face_at (mkBox 0.5 0.1 0.2 0.25)) (tracking [0.5])
  = - pan_in (face_at (mkBox 0.3 0.3 0.2 0.25)) (tracking []).
Proof.
  destruct (pan_monotone_and_odd
              (face_at (mkBox 0.3 0.3 0.2 0.25)) (face_at (mkBox 0.5 0.1 0.2 0.25))
              (tracking []) (tracking [0.5])
              (mkDetection (mkBox 0.3 0.3 0.2 0.25) [0.9])
              (mkDetection (mkBox 0.5 0.1 0.2 0.25) [0.9]) [] []
              (tracking_live []) eq_refl eq_refl
              (tracking_live [0.5]) eq_refl eq_refl) as [Hmono Hodd].
  split; [apply Hmono|apply Hodd];
    unfold box_centre; cbn [relative_bounding_box xmin width]; lra.
Defined.

(** ** Volume as a function of the hand *)

Lemma calculate_volume_distance (hand : HandLandmarks)
    (thumb index_tip : NormalizedLandmark) :
  nth_error (landmark hand) 4 = Some thumb ->
  nth_error (landmark hand) 8 = Some index_tip ->
  calculate_volume hand = Return (distance_volume (pinch_distance thumb index_tip)).
Proof.
  intros H4 H8. unfold calculate_volume, index. rewrite H4, H8. reflexivity.
Qed.

Lemma pinch_distance_sym (a b : NormalizedLandmark) :
  pinch_distance a b = pinch_distance b a.
Proof.
  unfold pinch_distance. f_equal.
  rewrite (Rsqr_neg_minus (x a) (x b)), (Rsqr_neg_minus (y a) (y b)).
  reflexivity.
Qed.

Lemma pinch_distance_shift (dx dy dz : R) (a b : NormalizedLandmark) :
  pinch_distance (shift dx dy dz a) (shift dx dy dz b) = pinch_distance a b.
Proof.
  unfold pinch_distance, shift. cbn [x y]. f_equal.
  f_equal; f_equal; lra.
Qed.

Lemma calculate_volume_short (hand : HandLandmarks) :
  (length (landmark hand) <= 8)%nat -> calculate_volume hand = Raise IndexError.
Proof.
  intros Hlen. unfold calculate_volume, index.
  destruct (nth_error (landmark hand) 4) as [a|] eqn:E4; [|reflexivity].
  destruct (nth_error (landmark hand) 8) as [b|] eqn:E8; [|reflexivity].
  assert (nth_error (landmark hand) 8 <> None) as Hsome by (rewrite E8; easy).
  apply nth_error_Some in Hsome. lia.
Qed.

(** X3: [calculate_volume] raises [IndexError] exactly on a hand with fewer
    than nine landmarks; on every other hand it returns a volume in
    [0, 1]. *)
Theorem calculate_volume_needs_nine_landmarks (hand : HandLandmarks) :
  ((length (landmark hand) <= 8)%nat ->
   calculate_volume hand = Raise IndexError) /\
  ((8 < length (landmark hand))%nat ->
   exists v, calculate_volume hand = Return v /\ 0 <= v <= 1).
Proof.
  split; [apply calculate_volume_short|].
  intros Hlen. destruct (calculate_volume_returns hand Hlen) as [v Hv].
  exists v. split; [exact Hv|]. exact (calculate_volume_range hand v Hv).
Qed.

(** X4: the volume does not depend on where the hand is in the picture nor
    on which of the two finger tips is which: moving every landmark by the
    same offset, or exchanging landmarks 4 and 8, leaves the result of
    [calculate_volume] unchanged (an exception included). *)
Theorem calculate_volume_position_free (hand : HandLandmarks) :
  (forall dx dy dz,
      calculate_volume (shift_hand dx dy dz hand) = calculate_volume hand) /\
  (forall hand',
      nth_error (landmark hand') 4 = nth_error (landmark hand) 8 ->
      nth_error (landmark hand') 8 = nth_error (landmark hand) 4 ->
      calculate_volume hand' = calculate_volume hand).
Proof.
  split.
  - intros dx dy dz.
    destruct (nth_error (landmark hand) 4) as [a|] eqn:E4.
    + destruct (nth_error (landmark hand) 8) as [b|] eqn:E8.
      * rewrite (calculate_volume_distance hand a b E4 E8).
        rewrite (calculate_volume_distance (shift_hand dx dy dz hand)
                   (shift dx dy dz a) (shift dx dy dz b)).
        -- now rewrite pinch_distance_shift.
        -- cbn [shift_hand landmark]. now rewrite nth_error_map, E4.
        -- cbn [shift_hand landmark]. now rewrite nth_error_map, E8.
      * unfold calculate_volume, index. cbn [shift_hand landmark].
        rewrite !nth_error_map, E4, E8. reflexivity.
    + unfold calculate_volume, index. cbn [shift_hand landmark].
      rewrite !nth_error_map, E4. reflexivity.
  - intros hand' H4 H8.
    destruct (nth_error (landmark hand) 4) as [a|] eqn:E4.
    + destruct (nth_error (landmark hand) 8) as [b|] eqn:E8.
      * rewrite (calculate_volume_distance hand a b E4 E8).
        rewrite (calculate_volume_distance hand' b a H4 H8).
        now rewrite pinch_distance_sym.
      * unfold calculate_volume, index. rewrite H4, E4, E8. reflexivity.
    + unfold calculate_volume, index. rewrite H4, H8, E4.
      destruct (nth_error (landmark hand) 8); reflexivity.
Qed.




(** ** The smoother as a sliding window *)

Lemma pushed_window (val : R) (h : list R) :
  (length h <= SMOOTH)%nat -> pushed val h = window (h ++ [val]).
Proof.
  intros Hlen. unfold pushed, window. cbv zeta.
  destruct (SMOOTH <? length (h ++ [val]))%nat eqn:E.
  - apply Nat.ltb_lt in E. rewrite length_app in *. cbn [length] in *.
    replace (length h + 1 - SMOOTH)%nat with 1%nat by lia.
    destruct h; reflexivity.
  - apply Nat.ltb_ge in E.
    replace (length (h ++ [val]) - SMOOTH)%nat with 0%nat by lia.
    reflexivity.
Qed.

Lemma window_app (l m : list R) : window (window l ++ m) = window (l ++ m).
Proof.
  unfold window.
  assert (E : skipn (length l - SMOOTH) l ++ m
              = skipn (length l - SMOOTH) (l ++ m)).
  { rewrite skipn_app.
    replace (length l - SMOOTH - length l)%nat with 0%nat by lia.
    reflexivity. }
  rewrite E, skipn_skipn, length_skipn. f_equal.
  rewrite length_app. lia.
Qed.

Lemma window_length (l : list R) : (length (window l) <= SMOOTH)%nat.
Proof. unfold window. rewrite length_skipn. lia. Qed.

(** The calls of [feed], one by one. *)
Lemma feed_window (vals : list R) (st : State) :
  (length (pan_history st) <= SMOOTH)%nat ->
  exists outs st',
    feed vals st = (Return outs, st') /\
    pan_history st' = window (pan_history st ++ vals) /\
    length outs = length vals /\
    forall k,
      (k < length vals)%nat ->
      nth_error outs k
      = Some (Py.mean (window (pan_history st ++ firstn (S k) vals))).
Proof.
  revert st. induction vals as [|v vals IH]; intros st Hlen.
  - exists [], st. split; [reflexivity|]. split.
    + rewrite app_nil_r. unfold window.
      replace (length (pan_history st) - SMOOTH)%nat with 0%nat by lia.
      reflexivity.
    + split; [reflexivity|]. cbn. intros k Hk. lia.
  - rewrite feed_cons. cbv zeta.
    set (st1 := with_pan_history st (pushed v (pan_history st))).
    assert (H1 : pan_history st1 = window (pan_history st ++ [v])).
    { unfold st1. cbn [with_pan_history pan_history]. now apply pushed_window. }
    destruct (IH st1) as (os & st' & E & Hh & Hl & Hk).
    { rewrite H1. apply window_length. }
    rewrite E. eexists _, st'. split; [reflexivity|]. split.
    + rewrite Hh, H1, window_app, <- app_assoc. reflexivity.
    + split; [cbn; now rewrite Hl|].
      intros [|k] Hlt.
      * cbn [nth_error firstn]. rewrite pushed_window by exact Hlen.
        reflexivity.
      * cbn [nth_error]. cbn [length] in Hlt. rewrite Hk by lia.
        rewrite H1, window_app, <- app_assoc. reflexivity.
Qed.

(** X6: [smooth_pan] is a sliding window over what it has been given: after
    any sequence of calls the history is the last six values of the old
    history followed by the arguments, and the k-th call returns the mean
    of the last six values up to and including its own argument. *)
Theorem smooth_pan_sliding_window (vals : list R) (st : State) :
  (length (pan_history st) <= 6)%nat ->
  exists outs st',
    feed vals st = (Return outs, st') /\
    pan_history st' = window (pan_history st ++ vals) /\
    length outs = length vals /\
    forall k,
      (k < length vals)%nat ->
      nth_error outs k
      = Some (Py.mean (window (pan_history st ++ firstn (S k) vals))).
Proof. apply feed_window. Qed.

Lemma smooth_pan_sliding_window_witness :
  exists outs st',
    feed [0.1; 0.2; 0.3; 0.4; 0.5; 0.6; 0.7] (tracking [1; 1]) = (Return outs, st') /\
    pan_history st' = [0.2; 0.3; 0.4; 0.5; 0.6; 0.7].
Proof.
  destruct (smooth_pan_sliding_window [0.1; 0.2; 0.3; 0.4; 0.5; 0.6; 0.7]
              (tracking [1; 1])) as (outs & st' & E & Hh & _).
  - cbn. lia.
  - exists outs, st'. split; [exact E|exact Hh].
Defined.












(** ** The process as a whole *)

Lemma paired_app (evs evs' : list Event) :
  paired evs -> paired evs' -> paired (evs ++ evs').
Proof.
  induction 1 as [|p v c f evs _ IH]; intros H'; [exact H'|].
  cbn [app]. constructor. now apply IH.
Qed.

Lemma published_thread_exit (st : State) :
  published (thread_exit st) = published st.
Proof. reflexivity. Qed.

Lemma start_tracking_keeps (st : State) :
  published (snd (start_tracking st)) = published st /\
  pan_history (snd (start_tracking st)) = pan_history st.
Proof.
  rewrite start_tracking_eq. cbn [snd].
  destruct (is_running st); unfold published; cbn [trace pan_history];
    [auto|].
  rewrite flat_map_app. cbn. now rewrite app_nil_r.
Qed.

(** What a pass can do to the published events and to the history. *)
Lemma camera_loop_iteration_effect (t : Tick) (st : State) :
  (published (snd (camera_loop_iteration t st)) = published st \/
   exists pan volume confidence f,
     published (snd (camera_loop_iteration t st))
     = published st ++ [audio_update pan volume confidence; video_frame f]) /\
  (pan_history (snd (camera_loop_iteration t st)) = pan_history st \/
   exists val,
     pan_history (snd (camera_loop_iteration t st))
     = pushed val (pan_history st)).
Proof.
  destruct (is_running st) eqn:Er;
    [|rewrite camera_loop_iteration_stopped by auto; auto].
  destruct (camera st) as [c|] eqn:Ec;
    [|rewrite camera_loop_iteration_stopped by auto; auto].
  assert (Hlive : live st) by (split; [exact Er|rewrite Ec; discriminate]).
  destruct (ret t) eqn:Eret;
    [|rewrite camera_loop_iteration_no_frame by auto; auto].
  split.
  - pose proof (camera_loop_iteration_eq t st Hlive Eret) as H. cbv zeta in H.
    destruct (tick_confidence t) as [cf|e], (tick_volume t) as [v|e'];
      try (rewrite H; left; reflexivity).
    destruct H as [ov H]. rewrite H. right. cbn [snd].
    rewrite published_pair. eauto.
  - rewrite iteration_history by assumption. unfold tick_history.
    destruct (detections t); [left; reflexivity|right; eauto].
Qed.

Lemma step_effect (st : State) (g : Trigger) :
  (published (step st g) = published st \/
   exists pan volume confidence f,
     published (step st g)
     = published st ++ [audio_update pan volume confidence; video_frame f]) /\
  (pan_history (step st g) = pan_history st \/
   exists val, pan_history (step st g) = pushed val (pan_history st)).
Proof.
  destruct g as [| |t]; cbn [step].
  - destruct (start_tracking_keeps st) as [Hp Hh]. auto.
  - auto.
  - destruct (loops st); [auto|].
    pose proof (camera_loop_iteration_effect t st) as H.
    destruct (camera_loop_iteration t st) as [[[|]|e] st']; exact H.
Qed.

(** X9: in everything the process ever publishes, the events come in
    pairs, each [audio_update] directly followed by its [video_frame]: no
    payload goes out without a frame and no frame without a payload. *)
Theorem published_events_are_paired (gs : list Trigger) :
  paired (published (run initial gs)).
Proof.
  assert (H : forall gs st, paired (published st) ->
                            paired (published (run st gs))).
  { clear gs. induction gs as [|g gs IH]; intros st Hst; [exact Hst|].
    apply IH. destruct (step_effect st g) as [[E|(p & v & c & f & E)] _];
      rewrite E; [exact Hst|].
    apply paired_app; [exact Hst|]. repeat constructor. }
  apply H. constructor.
Qed.

(** X10: whatever happens to the process, the smoothing history never holds
    more than six values. *)
Theorem history_never_exceeds_six (gs : list Trigger) :
  (length (pan_history (run initial gs)) <= 6)%nat.
Proof.
  assert (H : forall gs st, (length (pan_history st) <= SMOOTH)%nat ->
                            (length (pan_history (run st gs)) <= SMOOTH)%nat).
  { clear gs. induction gs as [|g gs IH]; intros st Hst; [exact Hst|].
    apply IH. destruct (step_effect st g) as [_ [E|(val & E)]]; rewrite E;
      [exact Hst|now apply pushed_length]. }
  apply H. cbn. lia.
Qed.




Lemma step_camera (st : State) (g : Trigger) :
  camera (step st g) =
  match camera st with
  | Some c => Some c
  | None =>
      if is_start g
      then Some (mkCapture 0 frame_width frame_height)
      else None
  end.
Proof.
  destruct g as [| |t]; cbn [step is_start].
  - rewrite start_tracking_eq. cbn [snd].
    destruct (is_running st), (camera st); reflexivity.
  - cbn. destruct (camera st); reflexivity.
  - assert (E : camera (match loops st with
                        | O => st
                        | S _ =>
                            match camera_loop_iteration t st with
                            | (Return Continue, st') => st'
                            | (_, st') => thread_exit st'
                            end
                        end) = camera st).
    { destruct (loops st); [reflexivity|].
      destruct (camera_loop_iteration_session t st) as (Hc & _ & _).
      destruct (camera_loop_iteration t st) as [[[|]|e] st']; exact Hc. }
    rewrite E. destruct (camera st); reflexivity.
Qed.

(** X12: the camera handle is opened by the first start and never released
    or replaced: after any sequence of events the handle is the one the
    process had, or, if it had none, device 0 at 640x480 from the first
    start on, and still none if no client has started tracking. *)
Theorem camera_is_opened_once_and_kept (st : State) (gs : list Trigger) :
  camera (run st gs) =
  match camera st with
  | Some c => Some c
  | None =>
      if existsb is_start gs
      then Some (mkCapture 0 640 480)
      else None
  end.
Proof.
  revert st. induction gs as [|g gs IH]; intros st.
  - cbn. destruct (camera st); reflexivity.
  - change (run st (g :: gs)) with (run (step st g) gs).
    rewrite IH, step_camera. cbn [existsb].
    destruct (camera st); [reflexivity|].
    destruct (is_start g); reflexivity.
Qed.

Lemma run_restarts (n : nat) (st : State) :
  is_running st = false ->
  loops (run st (restarts n)) = (loops st + n)%nat /\
  is_running (run st (restarts n)) = false /\
  published (run st (restarts n)) = published st.
Proof.
  revert st. induction n as [|n IH]; intros st Hr.
  - cbn. rewrite Nat.add_0_r. auto.
  - change (run st (restarts (S n)))
      with (run (step (step st StartTracking) Disconnect) (restarts n)).
    set (st2 := step (step st StartTracking) Disconnect).
    assert (E : loops st2 = S (loops st) /\ is_running st2 = false
                /\ published st2 = published st).
    { unfold st2. cbn [step]. rewrite start_tracking_eq. cbn [snd].
      rewrite Hr. unfold published. cbn. rewrite flat_map_app. cbn.
      now rewrite app_nil_r. }
    destruct E as (El & Er & Ep).
    destruct (IH st2 Er) as (Hl & Hr' & Hp).
    rewrite Hl, Hr', Hp, El, Ep. repeat split; auto; lia.
Qed.

(** X13: loop threads pile up when clients reconnect faster than the loop
    looks at its flag: after [n] rounds of start and disconnect with no pass
    in between, [n] threads are alive, and the next start adds one more and
    sets the flag for all of them. *)
Theorem reconnects_pile_up_loops (n : nat) :
  loops (run initial (restarts n)) = n /\
  loops (run initial (restarts n ++ [StartTracking])) = S n /\
  is_running (run initial (restarts n ++ [StartTracking])) = true.
Proof.
  destruct (run_restarts n initial eq_refl) as (Hl & Hr & _).
  cbn [loops initial] in Hl. cbn [Nat.add] in Hl.
  split; [exact Hl|].
  unfold run in *. rewrite fold_left_app. cbn [fold_left step].
  rewrite start_tracking_eq. cbn [snd]. rewrite Hr. cbn [loops is_running].
  rewrite Hl. auto.
Qed.

Lemma step_handler (st : State) (g : Trigger) :
  is_pass g = false ->
  pan_history (step st g) = pan_history st /\
  published (step st g) = published st.
Proof.
  destruct g as [| |t]; [| |discriminate]; intros _; cbn [step].
  - destruct (start_tracking_keeps st). auto.
  - auto.
Qed.

(** X14: neither handler touches the smoothing history or publishes
    anything: stopping and starting again does not clear the history, so
    the first pans of a new session are averaged with the last ones of the
    session before. *)
Theorem handlers_keep_history (st : State) (gs : list Trigger) :
  Forall (fun g => is_pass g = false) gs ->
  pan_history (run st gs) = pan_history st /\
  published (run st gs) = published st.
Proof.
  intros Hgs. revert st. induction Hgs as [|g gs Hg _ IH]; intros st; [auto|].
  change (run st (g :: gs)) with (run (step st g) gs).
  destruct (IH (step st g)) as [Eh Ep].
  destruct (step_handler st g Hg) as [Eh' Ep'].
  rewrite Eh, Ep, Eh', Ep'. auto.
Qed.

Lemma handlers_keep_history_witness :
  pan_history (run (tracking [1; 1; 1]) [Disconnect; StartTracking])
  = [1; 1; 1].
Proof.
  apply (handlers_keep_history (tracking [1; 1; 1]) [Disconnect; StartTracking]).
  repeat constructor.
Defined.

(** ** The published frame *)

Lemma camera_loop_body_frame (t : Tick) (st : State) (c v : R) :
  tick_confidence t = Return c -> tick_volume t = Return v ->
  camera_loop_body t st =
  (Return tt,
   with_trace (with_pan_history st (tick_history t (pan_history st)))
     (trace st
        ++ [Emit (audio_update (tick_pan t (pan_history st)) v c);
            Emit (video_frame
                    (mkFrame (flip (frame t))
                       (tick_overlays t (tick_pan t (pan_history st)) v)))])).
Proof.
  destruct st as [cam r h l tr].
  unfold tick_confidence, tick_volume, tick_pan, tick_history, tick_overlays,
    camera_loop_body.
  destruct (detections t) as [|det dets].
  - intros Hc. injection Hc as <-.
    destruct (multi_hand_landmarks t) as [|hand hands]; intros Hv;
      [injection Hv as <-|];
      cbv zeta; body_compute; try rewrite Hv;
      try (replace 0.0 with 0 by lra); try (replace 1.0 with 1 by lra);
      rewrite <- app_assoc; reflexivity.
  - fold (box_pan (relative_bounding_box det)). intros Hc.
    destruct (multi_hand_landmarks t) as [|hand hands]; intros Hv;
      [injection Hv as <-|];
      cbv zeta;
      unfold bind at 1; unfold bind at 1; rewrite smooth_pan_eq;
      unfold bind at 1; unfold lift at 1; rewrite Hc;
      body_compute; try rewrite Hv;
      try (replace 1.0 with 1 by lra);
      rewrite <- app_assoc; reflexivity.
Qed.

(** X15: what is drawn on the published frame agrees with the payload
    published with it: the frame is the mirrored camera picture; it carries
    the face rectangle and a PAN label exactly when a face was detected and
    a VOL label exactly when a hand was detected, and the labels show the
    pan and the volume of that tick's [audio_update]. *)
Theorem frame_shows_published_signal (t : Tick) (st : State) :
  live st -> ret t = true -> well_formed t ->
  exists pan volume confidence,
    published (snd (camera_loop_iteration t st)) =
    published st
      ++ [audio_update pan volume confidence;
          video_frame (mkFrame (flip (frame t)) (tick_overlays t pan volume))].
Proof.
  intros Hlive Hret Hwf.
  destruct (well_formed_returns t Hwf) as (c & v & Hc & Hv).
  rewrite (camera_loop_iteration_frame t st Hlive Hret).
  rewrite (camera_loop_body_frame t st c v Hc Hv). cbn [snd].
  exists (tick_pan t (pan_history st)), v, c. apply published_pair.
Qed.

Lemma frame_shows_published_signal_witness :
  exists pan volume confidence,
    published (snd (camera_loop_iteration pinching_face (tracking []))) =
    [audio_update pan volume confidence;
     video_frame
       (mkFrame [[(4, 5, 6); (1, 2, 3)]%Z]
          [box_rectangle (mkBox 0.4 0.3 0.2 0.25);
           PutText "PAN"%string pan (10, 40)%Z;
           PutText "VOL"%string volume (10, 80)%Z])].
Proof.
  destruct (frame_shows_published_signal pinching_face (tracking [])
              (tracking_live []) eq_refl pinching_face_well_formed)
    as (pan & volume & confidence & H).
  exists pan, volume, confidence. exact H.
Defined.

Lemma int_nonneg (r : R) :
  0 <= r -> (0 <= Py.int r)%Z /\ IZR (Py.int r) <= r.
Proof.
  intros Hr. unfold Py.int. destruct (Rle_dec 0 r) as [_|Hn]; [|easy].
  destruct (base_Int_part r) as [Hle Hgt]. split; [|exact Hle].
  assert (Hlt : IZR (-1) < IZR (Int_part r)) by lra.
  apply lt_IZR in Hlt. lia.
Qed.

(** X16: for a face box that lies inside the picture, the rectangle that is
    drawn lies inside the 640x480 frame, with its corners in order. *)
Theorem face_rectangle_inside_frame (box : RelativeBoundingBox) :
  0 <= xmin box -> 0 <= width box -> xmin box + width box <= 1 ->
  0 <= ymin box -> 0 <= height box -> ymin box + height box <= 1 ->
  exists x0 y0 x1 y1,
    box_rectangle box = Rectangle x0 y0 x1 y1 /\
    (0 <= x0 <= x1)%Z /\ (x1 <= 640)%Z /\
    (0 <= y0 <= y1)%Z /\ (y1 <= 480)%Z.
Proof.
  intros Hx Hw Hxw Hy Hh Hyh. unfold box_rectangle. cbv zeta.
  unfold frame_width, frame_height.
  destruct (int_nonneg (xmin box * 640)) as [Hx0 Hx1]; [nra|].
  destruct (int_nonneg (width box * 640)) as [Hw0 Hw1]; [nra|].
  destruct (int_nonneg (ymin box * 480)) as [Hy0 Hy1]; [nra|].
  destruct (int_nonneg (height box * 480)) as [Hh0 Hh1]; [nra|].
  eexists _, _, _, _. split; [reflexivity|].
  repeat split; try lia.
  - apply le_IZR. rewrite plus_IZR. nra.
  - apply le_IZR. rewrite plus_IZR. nra.
Qed.

Lemma face_rectangle_inside_frame_witness :
  exists x0 y0 x1 y1,
    box_rectangle (mkBox 0.4 0.3 0.2 0.25) = Rectangle x0 y0 x1 y1 /\
    (0 <= x0 <= x1)%Z /\ (x1 <= 640)%Z /\
    (0 <= y0 <= y1)%Z /\ (y1 <= 480)%Z.
Proof.
  apply (face_rectangle_inside_frame (mkBox 0.4 0.3 0.2 0.25));
    cbn [xmin ymin width height]; lra.
Defined.


(** ** The loop on its own *)

Lemma camera_loop_iteration_continues (t : Tick) (st : State) :
  live st -> well_formed t ->
  exists st',
    camera_loop_iteration t st = (Return Continue, st') /\
    live st' /\
    length (published st')
    = (length (published st) + if ret t then 2 else 0)%nat.
Proof.
  intros Hlive Hwf. destruct (ret t) eqn:Hret.
  - destruct (well_formed_returns t Hwf) as (c & v & Hc & Hv).
    pose proof (camera_loop_iteration_session t st) as (Ec & Er & _).
    rewrite (camera_loop_iteration_frame t st Hlive Hret) in *.
    rewrite (camera_loop_body_frame t st c v Hc Hv) in *. cbn [snd] in *.
    eexists. split; [reflexivity|]. split.
    + destruct Hlive as [Hr Hcam]. split; [now rewrite Er|now rewrite Ec].
    + rewrite published_pair, length_app. reflexivity.
  - rewrite camera_loop_iteration_no_frame by assumption.
    exists st. rewrite Nat.add_0_r. auto.
Qed.

(** X17: left alone with a set flag and well-formed detector messages, the
    loop works through every tick it is given and publishes two events for
    each captured frame and none for a failed read; it never clears the flag
    itself. *)
Theorem camera_loop_two_events_per_frame (ticks : list Tick) (st : State) :
  live st -> Forall well_formed ticks ->
  exists st',
    camera_loop ticks st = (Return tt, st') /\
    length (published st')
    = (length (published st) + 2 * length (filter ret ticks))%nat /\
    is_running st' = true.
Proof.
  intros Hlive Hwf. revert st Hlive.
  induction Hwf as [|t ticks Ht _ IH]; intros st Hlive.
  - exists st. cbn. rewrite Nat.add_0_r. destruct Hlive. auto.
  - destruct (camera_loop_iteration_continues t st Hlive Ht)
      as (st1 & E1 & Hlive1 & Hlen1).
    destruct (IH st1 Hlive1) as (st' & E & Hlen & Hr).
    exists st'. cbn [camera_loop]. unfold bind at 1. rewrite E1.
    split; [exact E|]. split; [|exact Hr].
    rewrite Hlen, Hlen1. cbn [filter].
    destruct (ret t); cbn [length]; lia.
Qed.

Lemma camera_loop_two_events_per_frame_witness :
  exists st',
    camera_loop [pinching_face; no_frame; nobody] (tracking []) = (Return tt, st') /\
    length (published st') = 4%nat.
Proof.
  destruct (camera_loop_two_events_per_frame
              [pinching_face; no_frame; nobody] (tracking []) (tracking_live []))
    as (st' & E & Hlen & _).
  - repeat constructor; cbn; try discriminate; lia.
  - exists st'. split; [exact E|exact Hlen].
Defined.

Lemma not_well_formed_raises (t : Tick) :
  ~ well_formed t ->
  tick_confidence t = Raise IndexError \/
  exists c, tick_confidence t = Return c /\ tick_volume t = Raise IndexError.
Proof.
  intros Hn. unfold well_formed, tick_confidence, tick_volume in *.
  destruct (detections t) as [|det dets].
  - right. exists 0. split; [reflexivity|].
    destruct (multi_hand_landmarks t) as [|hand hands]; [tauto|].
    apply calculate_volume_short.
    destruct (le_lt_dec (length (landmark hand)) 8); [assumption|tauto].
  - destruct (score det) as [|s ss]; [left; reflexivity|].
    right. exists s. split; [reflexivity|].
    destruct (multi_hand_landmarks t) as [|hand hands];
      [exfalso; apply Hn; split; [discriminate|exact I]|].
    apply calculate_volume_short.
    destruct (le_lt_dec (length (landmark hand)) 8); [assumption|].
    exfalso. apply Hn. split; [discriminate|assumption].
Qed.

(** X18: a malformed detector message (a detection without a score, a hand
    with fewer than nine landmarks) ends the loop with [IndexError] in the
    middle of the tick: nothing is published for it, the ticks after it are
    never looked at, the flag stays set, and when the tick showed a face its
    pan has already been put into the smoothing history. *)
Theorem malformed_message_aborts_mid_tick (t : Tick) (ticks : list Tick)
    (st : State) :
  live st -> ret t = true -> ~ well_formed t ->
  camera_loop (t :: ticks) st =
  (Raise IndexError,
   with_pan_history st (tick_history t (pan_history st))) /\
  published (snd (camera_loop (t :: ticks) st)) = published st /\
  is_running (snd (camera_loop (t :: ticks) st)) = true.
Proof.
  intros Hlive Hret Hn.
  assert (E : camera_loop (t :: ticks) st =
              (Raise IndexError,
               with_pan_history st (tick_history t (pan_history st)))).
  { cbn [camera_loop]. unfold bind at 1.
    pose proof (camera_loop_iteration_eq t st Hlive Hret) as H. cbv zeta in H.
    destruct (not_well_formed_raises t Hn) as [Hc|(c & Hc & Hv)].
    - rewrite Hc in H. now rewrite H.
    - rewrite Hc, Hv in H. now rewrite H. }
  rewrite E. cbn [snd]. destruct Hlive as [Hr _]. auto.
Qed.

Lemma malformed_message_aborts_mid_tick_witness :
  camera_loop [face_without_score; pinching_face] (tracking [0.5]) =
  (Raise IndexError,
   with_pan_history (tracking [0.5])
     (pushed (box_pan (mkBox 0.9 0.3 0.2 0.25)) [0.5])).
Proof.
  apply (malformed_message_aborts_mid_tick face_without_score [pinching_face]
           (tracking [0.5]) (tracking_live [0.5]) eq_refl).
  intros [H _]. apply H. reflexivity.
Defined.

(** ** The page *)

Lemma page_graph_some (p : Page.Page) (ins : list Page.Input) :
  Page.graph p <> None \/ existsb Page.is_click ins = true ->
  Page.graph (Page.run p ins) <> None.
Proof.
  revert p. induction ins as [|i ins IH]; intros p H.
  - cbn in *. destruct H; [assumption|discriminate].
  - change (Page.run p (i :: ins)) with (Page.run (Page.step p i) ins).
    apply IH. destruct i as [|e]; cbn [Page.step].
    + left. unfold Page.start. cbn. destruct (Page.graph p); discriminate.
    + destruct H as [H|H]; [|right; exact H].
      left. destruct e; cbn; [|exact H].
      destruct (Page.graph p); [discriminate|exact H].
Qed.

Lemma page_run_app (p : Page.Page) (ins ins' : list Page.Input) :
  Page.run p (ins ++ ins') = Page.run (Page.run p ins) ins'.
Proof. apply fold_left_app. Qed.

(** X19: the page follows the latest payload, but only once the button has
    been pressed: until the first click no event creates the audio graph
    (only the labels and the picture change); after it, every
    [audio_update] sets the labels, the panner and the gain to its pan and
    volume, a later click does not reset them, and every click sends one
    [start_tracking]. *)
Theorem page_follows_latest_payload (p : Page.Page) (ins : list Page.Input) :
  (Page.graph p = None -> existsb Page.is_click ins = false ->
   Page.graph (Page.run p ins) = None) /\
  (forall pan volume confidence,
      let p' := Page.run p (ins ++ [Page.Recv (audio_update pan volume confidence)]) in
      Page.panTxt p' = pan /\ Page.volTxt p' = volume /\
      (Page.graph p <> None \/ existsb Page.is_click ins = true ->
       Page.graph p' = Some (Page.mkGraph pan volume) /\
       Page.graph (Page.step p' Page.Click) = Some (Page.mkGraph pan volume))) /\
  Page.started (Page.run p ins)
  = (Page.started p + length (filter Page.is_click ins))%nat.
Proof.
  split; [|split].
  - revert p. induction ins as [|i ins IH]; intros p Hg Hc; [exact Hg|].
    cbn [existsb] in Hc. apply orb_false_elim in Hc as [Hi Hc].
    change (Page.run p (i :: ins)) with (Page.run (Page.step p i) ins).
    apply IH; [|exact Hc].
    destruct i as [|[pan volume confidence|f]]; [discriminate| |];
      cbn; now rewrite ?Hg.
  - intros pan volume confidence p'. subst p'. rewrite page_run_app.
    cbn [Page.run fold_left Page.step Page.receive Page.panTxt Page.volTxt].
    split; [reflexivity|]. split; [reflexivity|].
    intros H. pose proof (page_graph_some p ins H) as Hsome.
    cbn [Page.graph Page.start].
    destruct (Page.graph (Page.run p ins)); [split; reflexivity|easy].
  - revert p. induction ins as [|i ins IH]; intros p.
    + cbn. now rewrite Nat.add_0_r.
    + change (Page.run p (i :: ins)) with (Page.run (Page.step p i) ins).
      rewrite IH. destruct i as [|[pan volume confidence|f]];
        cbn [Page.step Page.start Page.receive Page.started filter
             Page.is_click length]; lia.
Qed.

Lemma page_step_audible (p : Page.Page) (i : Page.Input) :
  Page.audible p ->
  match i with
  | Page.Recv e => payload_in_range e
  | Page.Click => True
  end ->
  Page.audible (Page.step p i).
Proof.
  unfold Page.audible. intros Hp Hi.
  destruct i as [|[pan volume confidence|f]];
    cbn [Page.step Page.start Page.receive Page.graph].
  - destruct (Page.graph p); [exact Hp|]. cbn. lra.
  - destruct (Page.graph p); [|exact I]. exact Hi.
  - exact Hp.
Qed.

(** X20: end to end, the audio parameters stay inside their ranges: on a
    page that receives, in any order and with clicks anywhere in between,
    only events that the process has published, the panner's pan is in
    [-1, 1] and the gain in [0, 1] at every moment. *)
Theorem page_audio_stays_in_range (gs : list Trigger) (ins : list Page.Input) :
  (forall e, In (Page.Recv e) ins -> In e (published (run initial gs))) ->
  Page.audible (Page.run Page.loaded ins).
Proof.
  intros Hin.
  assert (Hrange : Forall payload_in_range (published (run initial gs))).
  { apply run_range. split; constructor. }
  rewrite Forall_forall in Hrange.
  assert (H : forall ins p,
             (forall e, In (Page.Recv e) ins -> payload_in_range e) ->
             Page.audible p -> Page.audible (Page.run p ins)).
  { clear. induction ins as [|i ins IH]; intros p Hins Hp; [exact Hp|].
    change (Page.run p (i :: ins)) with (Page.run (Page.step p i) ins).
    apply IH; [intros e He; apply Hins; now right|].
    apply page_step_audible; [exact Hp|].
    destruct i as [|e]; [exact I|]. apply Hins. now left. }
  apply H; [|exact I].
  intros e He. apply Hrange, Hin, He.
Qed.

Lemma published_after_empty_picture :
  exists f,
    published (run initial [StartTracking; LoopPass nobody])
    = [audio_update 0 1 0; video_frame f].
Proof.
  change (run initial [StartTracking; LoopPass nobody])
    with (step (step initial StartTracking) (LoopPass nobody)).
  set (st1 := step initial StartTracking).
  assert (Hlive : live st1) by (split; [reflexivity|discriminate]).
  cbn [step]. change (loops st1) with 1%nat. cbv iota.
  rewrite (camera_loop_iteration_frame nobody st1 Hlive eq_refl).
  rewrite (camera_loop_body_frame nobody st1 0 1 eq_refl eq_refl).
  eexists. apply (published_pair _ st1).
Qed.

Lemma page_audio_stays_in_range_witness :
  Page.audible
    (Page.run Page.loaded [Page.Click; Page.Recv (audio_update 0 1 0)]).
Proof.
  apply (page_audio_stays_in_range [StartTracking; LoopPass nobody]).
  intros e [He|[He|[]]]; [discriminate|].
  injection He as <-.
  destruct published_after_empty_picture as [f ->]. now left.
Defined.
